(** * Snake (pygame): a shallow embedding of the simulation core

    The development follows [src/settings.py], [src/game_objects.py] and
    [src/main.py].  Python integers are [Z]; attribute mutation is explicit
    record update; exceptions are the [Raise] branch of [result]; Python
    lists are [list] with stdpp's lookup; dictionaries are [gmap].  Rendering
    ([draw], colours on screen, fonts) is left out: no statement below
    depends on it. *)

From Stdlib Require Import ZArith QArith Qround Lia.
From stdpp Require Import base option list gmap.

Close Scope Q_scope.
Local Open Scope Z_scope.

(** ** Exceptions *)

Inductive exn : Type :=
  | IndexError
  | KeyError
  | ZeroDivisionError
  | ValueError
  | SystemExit.

Inductive result (A : Type) : Type :=
  | Ok (a : A)
  | Raise (e : exn).

Arguments Ok {A} a.
Arguments Raise {A} e.

#[export] Instance result_ret : MRet result := fun A a => Ok a.

#[export] Instance result_bind : MBind result := fun A B k m =>
  match m with
  | Ok a => k a
  | Raise e => Raise e
  end.

(** [xs[0]]: the first element, [IndexError] on an empty list. *)
Definition index0 {A : Type} (xs : list A) : result A :=
  match xs with
  | [] => Raise IndexError
  | a :: _ => Ok a
  end.

(** [xs.insert(1, a)]: Python clamps the index, so an empty list becomes
    [[a]]. *)
Definition insert1 {A : Type} (a : A) (xs : list A) : list A :=
  take 1 xs ++ a :: drop 1 xs.

(** ** pygame: keys, rectangles, events *)

Module pygame.

(** Key codes of pygame 2 (SDL2 key codes). *)
Definition K_RIGHT : Z := 1073741903.
Definition K_LEFT : Z := 1073741904.
Definition K_DOWN : Z := 1073741905.
Definition K_UP : Z := 1073741906.

(** [pygame.Rect]: integer left/top corner and size.  Coordinates are
    unbounded integers here. *)
Record Rect : Type := mkRect { x : Z; y : Z; w : Z; h : Z }.

Definition left (r : Rect) : Z := x r.
Definition top (r : Rect) : Z := y r.
Definition right (r : Rect) : Z := x r + w r.
Definition bottom (r : Rect) : Z := y r + h r.

(** [Rect.move(dx, dy)]: a new rectangle, same size. *)
Definition move (r : Rect) (dx dy : Z) : Rect :=
  mkRect (x r + dx) (y r + dy) (w r) (h r).

(** [r.x = v] and [r.y = v]. *)
Definition set_x (r : Rect) (v : Z) : Rect := mkRect v (y r) (w r) (h r).
Definition set_y (r : Rect) (v : Z) : Rect := mkRect (x r) v (w r) (h r).

(** [Rect.colliderect]: pygame's intersection test.  A rectangle of zero
    width or height collides with nothing; touching edges do not count. *)
Definition colliderect (a b : Rect) : bool :=
  if (w a =? 0) || (h a =? 0) || (w b =? 0) || (h b =? 0) then false
  else (Z.min (x a) (x a + w a) <? Z.max (x b) (x b + w b))
    && (Z.min (y a) (y a + h a) <? Z.max (y b) (y b + h b))
    && (Z.min (x b) (x b + w b) <? Z.max (x a) (x a + w a))
    && (Z.min (y b) (y b + h b) <? Z.max (y a) (y a + h a)).

(** Events delivered by [pygame.event.get()]. *)
Inductive event : Type :=
  | QUIT
  | KEYDOWN (key : Z)
  | KEYUP (key : Z)
  | OTHER (type : Z).

End pygame.

Import pygame.

(** ** random.randrange

    The random source is a stream of raw draws; every call consumes one. *)

Definition rng : Type := nat → Z.

Definition rng_next (r : rng) : Z * rng := (r 0%nat, fun n => r (S n)).

(** [randrange(start, stop, step)] as in CPython's [random.py]: the number
    of candidates is counted, an empty range or a zero step is a
    [ValueError], and the value is [start + step * k] for a [k] below the
    count. *)
Definition randrange (start stop step : Z) (r : rng) : result (Z * rng) :=
  let width := stop - start in
  if step =? 0 then Raise ValueError
  else
    let n := if 0 <? step then (width + step - 1) `div` step
             else (width + step + 1) `div` step in
    if n <=? 0 then Raise ValueError
    else let '(k, r') := rng_next r in Ok (start + step * (k `mod` n), r').

(** ** settings.py *)

Record Settings : Type := mkSettings {
  WINDOW_WIDTH : Z;
  WINDOW_HEIGHT : Z;
  GLOBAL_FPS : Z;
  GRID_SIZE : Z;
  SNAKE_SPEED : Z;
  SNAKE_INIT_LENGTH : Z
}.

(** The values of [settings.py]. *)
Definition settings_py : Settings :=
  {| WINDOW_WIDTH := 480; WINDOW_HEIGHT := 360; GLOBAL_FPS := 60;
     GRID_SIZE := 10; SNAKE_SPEED := 20; SNAKE_INIT_LENGTH := 0 |}.

(** [a // b]. *)
Definition floordiv (a b : Z) : result Z :=
  if b =? 0 then Raise ZeroDivisionError else Ok (a `div` b).

(** [SNAKE_INIT_X = WINDOW_WIDTH // 5 // GRID_SIZE * GRID_SIZE]. *)
Definition SNAKE_INIT_X (stg : Settings) : result Z :=
  a ← floordiv (WINDOW_WIDTH stg) 5;
  b ← floordiv a (GRID_SIZE stg);
  Ok (b * GRID_SIZE stg).

Definition SNAKE_INIT_Y (stg : Settings) : result Z :=
  a ← floordiv (WINDOW_HEIGHT stg) 2;
  b ← floordiv a (GRID_SIZE stg);
  Ok (b * GRID_SIZE stg).

Inductive key_name : Type := LEFT | RIGHT | UP | DOWN.

(** [KEYS]: the key bound to each name. *)
Definition KEYS (n : key_name) : Z :=
  match n with
  | LEFT => K_LEFT
  | RIGHT => K_RIGHT
  | UP => K_UP
  | DOWN => K_DOWN
  end.

(** [key in KEYS.values()]. *)
Definition in_KEYS_values (key : Z) : bool :=
  bool_decide (key ∈ [KEYS LEFT; KEYS RIGHT; KEYS UP; KEYS DOWN]).

(** ** Time

    [Snake.time] and [dt] are Python floats.  The code only adds them,
    compares them, computes [1 / speed] and starts from the literals [0]
    and [0.1]; the model is generic in these, so nothing proved depends on
    how floats round. *)

Class Clock (T : Type) : Type := {
  t_zero : T;
  t_tenth : T;
  t_add : T → T → T;
  t_gt : T → T → bool;
  t_inv : Z → T
}.

(** Exact rational time. *)
#[export] Instance Q_Clock : Clock Q := {|
  t_zero := 0%Q;
  t_tenth := (1 # 10)%Q;
  t_add := Qplus;
  t_gt a b := if Qlt_le_dec b a then true else false;
  t_inv z := Qinv (inject_Z z)
|}.

(** [1 / speed]. *)
Definition one_over {T : Type} `{Clock T} (speed : Z) : result T :=
  if speed =? 0 then Raise ZeroDivisionError else Ok (t_inv speed).

(** ** game_objects.py: GameObject and its subclasses *)

Inductive class_tag : Type := SnakeHead | SnakeBody | SnakeTail | AppleTag.

Definition ColorValue : Type := (Z * Z * Z)%type.

(** The attributes [GameObject.__init__] sets, plus the concrete class. *)
Record GameObject : Type := mkGameObject {
  cls : class_tag;
  bounds : Rect;
  color : ColorValue;
  offset : Z * Z;
  speed : Z;
  direction : Z;
  step_size : Z
}.

Definition with_bounds (o : GameObject) (b : Rect) : GameObject :=
  mkGameObject (cls o) b (color o) (offset o) (speed o) (direction o)
    (step_size o).

Definition with_direction (o : GameObject) (d : Z) : GameObject :=
  mkGameObject (cls o) (bounds o) (color o) (offset o) (speed o) d
    (step_size o).

(** [Apple]: a [GameObject] with a lifespan. *)
Record Apple : Type := mkApple { apple_obj : GameObject; lifespan : Z }.

(** [Snake]: the parts, head first, and the attributes of [Snake.__init__];
    [T] is the type of [time]. *)
Record Snake (T : Type) : Type := mkSnake {
  parts : list GameObject;
  snake_color : ColorValue;
  snake_offset : Z * Z;
  snake_speed : Z;
  time : T;
  got_apple : bool
}.

Arguments mkSnake {T}.
Arguments parts {T}.
Arguments snake_color {T}.
Arguments snake_offset {T}.
Arguments snake_speed {T}.
Arguments time {T}.
Arguments got_apple {T}.

Definition with_parts {T} (s : Snake T) (ps : list GameObject) : Snake T :=
  mkSnake ps (snake_color s) (snake_offset s) (snake_speed s) (time s)
    (got_apple s).

Definition with_time {T} (s : Snake T) (t : T) : Snake T :=
  mkSnake (parts s) (snake_color s) (snake_offset s) (snake_speed s) t
    (got_apple s).

Definition with_got_apple {T} (s : Snake T) (b : bool) : Snake T :=
  mkSnake (parts s) (snake_color s) (snake_offset s) (snake_speed s) (time s)
    b.

(** Directions as the code numbers them. *)
Definition D_UP : Z := 0.
Definition D_RIGHT : Z := 1.
Definition D_DOWN : Z := 2.
Definition D_LEFT : Z := 3.

(** [(-1) ** b] for a Boolean exponent. *)
Definition neg1_pow (b : bool) : Z := if b then -1 else 1.

(** [GameObject.get_velocity(direction, speed, step_size)].  [round] of an
    integer is that integer. *)
Definition get_velocity (direction speed step_size : Z) : Z * Z :=
  let dx := direction `mod` 2
            * neg1_pow (direction `mod` 3 =? 0)
            * step_size in
  let dy := (direction + 1) `mod` 2
            * neg1_pow (direction `mod` 3 =? 0)
            * step_size in
  (dx, dy).

(** [GameObject.move(dx, dy)]. *)
Definition GameObject_move (o : GameObject) (dx dy : Z) : GameObject :=
  with_bounds o (move (bounds o) dx dy).

(** [SnakeHead.DIRECTIONS]. *)
Definition DIRECTIONS : gmap Z Z :=
  <[KEYS LEFT := 3]> (<[KEYS DOWN := 2]> (<[KEYS RIGHT := 1]>
    (<[KEYS UP := 0]> ∅))).

(** [d[key]] on a dict. *)
Definition getitem {V : Type} (d : gmap Z V) (key : Z) : result V :=
  match d !! key with
  | Some v => Ok v
  | None => Raise KeyError
  end.

(** [SnakeHead.handle(key)]. *)
Definition SnakeHead_handle (key : Z) (o : GameObject) : result GameObject :=
  if (bool_decide (key ∈ [KEYS LEFT; KEYS RIGHT])
        && negb (direction o `mod` 2 =? 1))
     || (bool_decide (key ∈ [KEYS UP; KEYS DOWN])
        && negb (direction o `mod` 2 =? 0))
  then d ← getitem DIRECTIONS key; Ok (with_direction o d)
  else Ok o.

Section Model.

Context {T : Type} `{Clock T} (stg : Settings).

(** [GameObject.__init__] with the defaults [w = h = step_size =
    GRID_SIZE]. *)
Definition GameObject_init (c : class_tag) (x y : Z) (col : ColorValue)
    (off : Z * Z) (spd dir : Z) : GameObject :=
  mkGameObject c (mkRect x y (GRID_SIZE stg) (GRID_SIZE stg)) col off spd
    dir (GRID_SIZE stg).

(** [Apple.__init__]: speed 0, direction 2, lifespan 9999 by default. *)
Definition Apple_init (x y : Z) (off : Z * Z) (col : ColorValue) : Apple :=
  mkApple (GameObject_init AppleTag x y col off 0 2) 9999.

(** [GameObject.update(dt)]: [get_velocity] is called without a step
    size, so its default [GRID_SIZE] applies. *)
Definition GameObject_update (o : GameObject) : GameObject :=
  if negb (speed o =? 0) then
    let '(dx, dy) := get_velocity (direction o) (speed o) (GRID_SIZE stg) in
    GameObject_move o dx dy
  else o.

(** [Apple.respawn()]. *)
Definition Apple_respawn (a : Apple) (r : rng) : result (Apple * rng) :=
  let o := apple_obj a in
  '(vx, r1) ← randrange 0 ((offset o).1 - w (bounds o)) 1 r;
  let o1 := with_bounds o (set_x (bounds o) vx) in
  '(vy, r2) ← randrange 0 ((offset o1).2 - h (bounds o1)) 1 r1;
  let o2 := with_bounds o1 (set_y (bounds o1) vy) in
  Ok (mkApple o2 (lifespan a), r2).

(** The second loop of [Snake.__init__]: part [i] is moved back by [i]
    steps. *)
Definition shift_body (dir spd : Z) (ps : list GameObject)
    : list GameObject :=
  foldl
    (fun ps i =>
       let '(vx, vy) := get_velocity dir spd (GRID_SIZE stg) in
       alter (fun p => GameObject_move p (- vx * Z.of_nat i)
                                        (- vy * Z.of_nat i)) i ps)
    ps (seq 1 (length ps - 1)).

(** [Snake.__init__(x, y, color, offset, speed, direction, length)]. *)
Definition Snake_init (x y : Z) (col : ColorValue) (off : Z * Z)
    (spd dir len : Z) : Snake T :=
  let ps0 := [GameObject_init SnakeHead x y col off spd dir;
              GameObject_init SnakeTail x y col off spd dir] in
  let ps1 := Nat.iter (Z.to_nat len)
               (insert1 (GameObject_init SnakeBody x y col off spd dir))
               ps0 in
  mkSnake (shift_body dir spd ps1) col off spd t_zero false.

(** [Snake.head]. *)
Definition head (s : Snake T) : result GameObject := index0 (parts s).

(** The loop of [Snake.move]: each part takes the position and direction
    carried in [tmp] and hands its own on. *)
Fixpoint follow (tmp_x tmp_y tmp_direction : Z) (ps : list GameObject)
    : list GameObject :=
  match ps with
  | [] => []
  | part :: rest =>
      with_direction
        (with_bounds part (set_y (set_x (bounds part) tmp_x) tmp_y))
        tmp_direction
      :: follow (x (bounds part)) (y (bounds part)) (direction part) rest
  end.

(** [Snake.move(dt)]. *)
Definition Snake_move (s : Snake T) : result (Snake T) :=
  hd ← head s;
  let tmp_direction := direction hd in
  let tmp_x := x (bounds hd) in
  let tmp_y := y (bounds hd) in
  Ok (with_parts s
        (GameObject_update hd
         :: follow tmp_x tmp_y tmp_direction (drop 1 (parts s)))).

(** [Snake.grow(dt)]. *)
Definition Snake_grow (s : Snake T) : result (Snake T) :=
  hd ← head s;
  let body := GameObject_init SnakeBody (x (bounds hd)) (y (bounds hd))
                (snake_color s) (snake_offset s) (speed hd)
                (direction hd) in
  let ps := insert1 body (parts s) in
  hd' ← index0 ps;
  Ok (with_parts s (GameObject_update hd' :: drop 1 ps)).

(** [Snake.update(dt)]. *)
Definition Snake_update (dt : T) (s : Snake T) : result (Snake T) :=
  hd ← head s;
  limit ← one_over (speed hd);
  if t_gt (time s) limit then
    s' ← (if got_apple s
           then s1 ← Snake_grow s; Ok (with_got_apple s1 false)
           else Snake_move s);
    Ok (with_time s' t_zero)
  else Ok (with_time s (t_add (time s) dt)).

(** [Snake.handle(key)]. *)
Definition Snake_handle (key : Z) (s : Snake T) : result (Snake T) :=
  hd ← head s;
  hd' ← SnakeHead_handle key hd;
  Ok (with_parts s (hd' :: drop 1 (parts s))).

(** [Snake.check_collision()]. *)
Definition Snake_check_collision (s : Snake T) : result bool :=
  hd ← head s;
  if (left (bounds hd) <? 0)
     || (right (bounds hd) >? (snake_offset s).1)
     || (top (bounds hd) <? 0)
     || (bottom (bounds hd) >? (snake_offset s).2)
  then Ok true
  else Ok (existsb (fun part => colliderect (bounds hd) (bounds part))
             (drop 1 (parts s))).

(** [Snake.colliderect(rect)]. *)
Definition Snake_colliderect (s : Snake T) (rect : Rect) : bool :=
  existsb (fun part => colliderect (bounds part) rect) (parts s).

End Model.

(** ** main.py: Game and SnakeGame *)

(** The callables registered as key-down handlers: the game registers only
    the bound method [self.snake.head.handle].  The head object stays the
    first part for the whole game, so calling it is [Snake.handle]. *)
Inductive handler : Type := snake_head_handle.

(** References held in [Game.objects]. *)
Inductive object_ref : Type := the_snake | the_apple.

(** The attributes of [Game] and [SnakeGame] that the simulation uses. *)
Record SnakeGame (T : Type) : Type := mkSnakeGame {
  frame_rate : Z;
  game_over : bool;
  objects : list object_ref;
  score : Z;
  keydown_handlers : gmap Z (list handler);
  snake : Snake T;
  apple : Apple
}.

Arguments mkSnakeGame {T}.
Arguments frame_rate {T}.
Arguments game_over {T}.
Arguments objects {T}.
Arguments score {T}.
Arguments keydown_handlers {T}.
Arguments snake {T}.
Arguments apple {T}.

Definition with_snake {T} (g : SnakeGame T) (s : Snake T) : SnakeGame T :=
  mkSnakeGame (frame_rate g) (game_over g) (objects g) (score g)
    (keydown_handlers g) s (apple g).

Definition with_apple {T} (g : SnakeGame T) (a : Apple) : SnakeGame T :=
  mkSnakeGame (frame_rate g) (game_over g) (objects g) (score g)
    (keydown_handlers g) (snake g) a.

Definition with_score {T} (g : SnakeGame T) (n : Z) : SnakeGame T :=
  mkSnakeGame (frame_rate g) (game_over g) (objects g) n
    (keydown_handlers g) (snake g) (apple g).

Definition with_game_over {T} (g : SnakeGame T) (b : bool) : SnakeGame T :=
  mkSnakeGame (frame_rate g) b (objects g) (score g)
    (keydown_handlers g) (snake g) (apple g).

Definition with_keydown_handlers {T} (g : SnakeGame T)
    (m : gmap Z (list handler)) : SnakeGame T :=
  mkSnakeGame (frame_rate g) (game_over g) (objects g) (score g) m
    (snake g) (apple g).

(** [d[key]] on a [defaultdict(list)]: a missing key is first bound to the
    empty list. *)
Definition defaultdict_get {V : Type} (d : gmap Z (list V)) (key : Z)
    : list V * gmap Z (list V) :=
  match d !! key with
  | Some vs => (vs, d)
  | None => ([], <[key := []]> d)
  end.

(** [d[key].append(v)]. *)
Definition defaultdict_append {V : Type} (d : gmap Z (list V)) (key : Z)
    (v : V) : gmap Z (list V) :=
  let '(vs, d') := defaultdict_get d key in <[key := vs ++ [v]]> d'.

(** The loop of [Game.handle_events] over the events that
    [pygame.event.get()] returned; [dispatch key] is the inner loop over
    the handlers of [key]. *)
Fixpoint handle_events_loop {G : Type} (dispatch : Z → G → result G)
    (events : list event) (g : G) : result G :=
  match events with
  | [] => Ok g
  | QUIT :: _ => Raise SystemExit
  | KEYDOWN key :: rest =>
      if in_KEYS_values key then dispatch key g
      else handle_events_loop dispatch rest g
  | _ :: rest => handle_events_loop dispatch rest g
  end.

(** [for handler in handlers: handler(key)]. *)
Fixpoint call_all {G : Type} (call : handler → Z → G → result G)
    (handlers : list handler) (key : Z) (g : G) : result G :=
  match handlers with
  | [] => Ok g
  | hdl :: rest => g' ← call hdl key g; call_all call rest key g'
  end.

Section Game.

Context {T : Type} `{Clock T} (stg : Settings).

(** Calling a registered handler. *)
Definition call (hdl : handler) (key : Z) (g : SnakeGame T)
    : result (SnakeGame T) :=
  match hdl with
  | snake_head_handle => s ← Snake_handle key (snake g); Ok (with_snake g s)
  end.

(** The handlers of [key] are looked up, then called in order. *)
Definition dispatch_keydown (key : Z) (g : SnakeGame T)
    : result (SnakeGame T) :=
  let '(handlers, m) := defaultdict_get (keydown_handlers g) key in
  call_all call handlers key (with_keydown_handlers g m).

(** [Game.handle_events()] on the pending [queue]: [pygame.event.get()]
    takes every queued event, so the queue is empty afterwards. *)
Definition Game_handle_events (queue : list event) (g : SnakeGame T)
    : result (SnakeGame T * list event) :=
  g' ← handle_events_loop dispatch_keydown queue g; Ok (g', []).

(** [Game.update(dt)]. *)
Definition update_object (dt : T) (g : SnakeGame T) (o : object_ref)
    : result (SnakeGame T) :=
  match o with
  | the_snake => s ← Snake_update stg dt (snake g); Ok (with_snake g s)
  | the_apple =>
      Ok (with_apple g
            (mkApple (GameObject_update stg (apple_obj (apple g)))
               (lifespan (apple g))))
  end.

Fixpoint update_objects (dt : T) (os : list object_ref) (g : SnakeGame T)
    : result (SnakeGame T) :=
  match os with
  | [] => Ok g
  | o :: rest => g' ← update_object dt g o; update_objects dt rest g'
  end.

Definition Game_update (dt : T) (g : SnakeGame T) : result (SnakeGame T) :=
  update_objects dt (objects g) g.

(** [Game.finish()]. *)
Definition Game_finish (g : SnakeGame T) : SnakeGame T :=
  with_game_over g true.

(** The [while] loop of [SnakeGame.get_apple]; [None] when [fuel]
    iterations were not enough. *)
Fixpoint respawn_loop (fuel : nat) (s : Snake T) (a : Apple) (r : rng)
    : option (result (Apple * rng)) :=
  match fuel with
  | O => None
  | S fuel' =>
      if Snake_colliderect s (bounds (apple_obj a)) then
        match Apple_respawn a r with
        | Ok (a', r') => respawn_loop fuel' s a' r'
        | Raise e => Some (Raise e)
        end
      else Some (Ok (a, r))
  end.

(** [SnakeGame.get_apple()]. *)
Definition get_apple (fuel : nat) (g : SnakeGame T) (r : rng)
    : option (result (SnakeGame T * rng)) :=
  match respawn_loop fuel (snake g) (apple g) r with
  | None => None
  | Some (Raise e) => Some (Raise e)
  | Some (Ok (a, r')) =>
      let g1 := with_apple g a in
      let g2 := with_snake g1 (with_got_apple (snake g1) true) in
      Some (Ok (with_score g2 (score g2 + 1), r'))
  end.

(** [SnakeGame.check_apple_snake_collision()]. *)
Fixpoint apple_hits_head (os : list object_ref) (g : SnakeGame T)
    : result bool :=
  match os with
  | [] => Ok false
  | the_snake :: rest => apple_hits_head rest g
  | the_apple :: rest =>
      hd ← head (snake g);
      if colliderect (bounds (apple_obj (apple g))) (bounds hd)
      then Ok true
      else apple_hits_head rest g
  end.

Definition check_apple_snake_collision (g : SnakeGame T) : result bool :=
  apple_hits_head (objects g) g.

(** [SnakeGame.handle_collisions()]. *)
Definition handle_collisions (fuel : nat) (g : SnakeGame T) (r : rng)
    : option (result (SnakeGame T * rng)) :=
  match Snake_check_collision (snake g) with
  | Raise e => Some (Raise e)
  | Ok wall =>
      let g1 := if wall then Game_finish g else g in
      match check_apple_snake_collision g1 with
      | Raise e => Some (Raise e)
      | Ok true => get_apple fuel g1 r
      | Ok false => Some (Ok (g1, r))
      end
  end.

(** [SnakeGame.__init__]: the snake, the apple on a random grid cell, the
    object list and the four key bindings. *)
Definition SnakeGame_init (fps : Z) (r : rng)
    : result (SnakeGame T * rng) :=
  x0 ← SNAKE_INIT_X stg;
  y0 ← SNAKE_INIT_Y stg;
  let off := (WINDOW_WIDTH stg, WINDOW_HEIGHT stg) in
  let s := Snake_init stg x0 y0 (0, 165, 80) off (SNAKE_SPEED stg) 1
             (SNAKE_INIT_LENGTH stg) in
  '(ax, r1) ← randrange 0 (WINDOW_WIDTH stg - GRID_SIZE stg)
                (GRID_SIZE stg) r;
  '(ay, r2) ← randrange 0 (WINDOW_HEIGHT stg - GRID_SIZE stg)
                (GRID_SIZE stg) r1;
  let a := Apple_init stg ax ay off (110, 203, 60) in
  let m := defaultdict_append
             (defaultdict_append
                (defaultdict_append
                   (defaultdict_append ∅ (KEYS LEFT) snake_head_handle)
                   (KEYS RIGHT) snake_head_handle)
                (KEYS UP) snake_head_handle)
             (KEYS DOWN) snake_head_handle in
  Ok (mkSnakeGame fps false [the_snake; the_apple] 0 m s a, r2).

(** One iteration of the loop of [Game.run]: collisions, events, update.
    Drawing and the frame clock are outside the model; [queue] and [dt]
    are what the input source and the clock supplied. *)
Definition frame (fuel : nat) (queue : list event) (dt : T)
    (g : SnakeGame T) (r : rng) : option (result (SnakeGame T * rng)) :=
  match handle_collisions fuel g r with
  | None => None
  | Some (Raise e) => Some (Raise e)
  | Some (Ok (g1, r1)) =>
      Some ('(g2, _) ← Game_handle_events queue g1;
            g3 ← Game_update dt g2;
            Ok (g3, r1))
  end.

(** The loop of [Game.run] over recorded input: each element holds the
    events polled in one frame and the time the clock reports at its
    end. *)
Fixpoint run_loop (fuel : nat) (dt : T) (inputs : list (list event * T))
    (g : SnakeGame T) (r : rng) : option (result (SnakeGame T * rng)) :=
  match inputs with
  | [] => Some (Ok (g, r))
  | (queue, tick) :: rest =>
      if game_over g then Some (Ok (g, r))
      else
        match frame fuel queue dt g r with
        | Some (Ok (g', r')) => run_loop fuel tick rest g' r'
        | other => other
        end
  end.

(** [Game.run()]: the first frame is given [dt = 0.1]. *)
Definition Game_run (fuel : nat) (inputs : list (list event * T))
    (g : SnakeGame T) (r : rng) : option (result (SnakeGame T * rng)) :=
  run_loop fuel t_tenth inputs g r.

End Game.

(** ** game_objects.py: the tail's shape

    [pygame.Rect] exposes the corners and the edge midpoints of a box.
    For the sizes the game builds, which are not negative, the centre is
    the corner plus half the size, rounded down. *)

Definition centerx (r : Rect) : Z := x r + w r `div` 2.
Definition centery (r : Rect) : Z := y r + h r `div` 2.
Definition topleft (r : Rect) : Z * Z := (left r, top r).
Definition topright (r : Rect) : Z * Z := (right r, top r).
Definition bottomleft (r : Rect) : Z * Z := (left r, bottom r).
Definition bottomright (r : Rect) : Z * Z := (right r, bottom r).
Definition midtop (r : Rect) : Z * Z := (centerx r, top r).
Definition midbottom (r : Rect) : Z * Z := (centerx r, bottom r).
Definition midleft (r : Rect) : Z * Z := (left r, centery r).
Definition midright (r : Rect) : Z * Z := (right r, centery r).

(** [t[i]] on a tuple: a negative index counts from the end, an index out
    of range is an [IndexError]. *)
Definition tuple_getitem {A : Type} (t : list A) (i : Z) : result A :=
  let n := Z.of_nat (length t) in
  let j := if i <? 0 then i + n else i in
  if (0 <=? j) && (j <? n) then
    match t !! Z.to_nat j with
    | Some a => Ok a
    | None => Raise IndexError
    end
  else Raise IndexError.

(** [SnakeTail.draw(surface)]: the three points handed to
    [pygame.draw.polygon]. *)
Definition SnakeTail_draw (o : GameObject) : result (list (Z * Z)) :=
  let b := bounds o in
  let all_points :=
    [midbottom b; topleft b; midleft b; topright b;
     midtop b; bottomright b; midright b; bottomleft b] in
  p0 ← tuple_getitem all_points (direction o * 2);
  p1 ← tuple_getitem all_points ((direction o * 2 + 1) `mod` 8);
  p2 ← tuple_getitem all_points ((direction o * 2 + 3) `mod` 8);
  Ok [p0; p1; p2].

(** * Vocabulary of the specification *)

(** The velocity table of the specification. *)
Definition step_vector (d m : Z) : Z * Z :=
  if d =? D_UP then (0, - m)
  else if d =? D_RIGHT then (m, 0)
  else if d =? D_DOWN then (0, m)
  else if d =? D_LEFT then (- m, 0)
  else (0, 0).

(** The direction each key name stands for. *)
Definition bound_direction (n : key_name) : Z :=
  match n with
  | UP => D_UP
  | RIGHT => D_RIGHT
  | DOWN => D_DOWN
  | LEFT => D_LEFT
  end.

Definition vertical (d : Z) : bool := (d =? D_UP) || (d =? D_DOWN).
Definition horizontal (d : Z) : bool := (d =? D_RIGHT) || (d =? D_LEFT).

Definition perpendicular (d1 d2 : Z) : bool :=
  (vertical d1 && horizontal d2) || (horizontal d1 && vertical d2).

Definition opposite (d : Z) : Z := (d + 2) `mod` 4.

(** [q'] is the part [q] put at the position and heading of [p]; its
    size and its other attributes are those of [q]. *)
Definition adopts (p q q' : GameObject) : Prop :=
  x (bounds q') = x (bounds p) ∧ y (bounds q') = y (bounds p)
  ∧ direction q' = direction p
  ∧ w (bounds q') = w (bounds q) ∧ h (bounds q') = h (bounds q)
  ∧ cls q' = cls q ∧ color q' = color q ∧ offset q' = offset q
  ∧ speed q' = speed q ∧ step_size q' = step_size q.

(** The head [hd'] is [hd] one step of [m] pixels further along its
    direction. *)
Definition advanced (m : Z) (hd hd' : GameObject) : Prop :=
  hd' = GameObject_move hd (step_vector (direction hd) m).1
          (step_vector (direction hd) m).2.

(** The movement claim as the specification words it, for one call that
    takes the snake from [s] to [s']. *)
Definition move_as_specified {T} (s s' : Snake T) : Prop :=
  (∃ hd hd', parts s !! 0%nat = Some hd ∧ parts s' !! 0%nat = Some hd'
             ∧ advanced (step_size hd) hd hd')
  ∧ ∀ i p q, parts s !! i = Some p → parts s !! S i = Some q →
      ∃ q', parts s' !! S i = Some q' ∧ adopts p q q'.

(** The box [r] is not inside the playfield [[0, width] x [0, height]]. *)
Definition outside_playfield (off : Z * Z) (r : Rect) : Prop :=
  left r < 0 ∨ right r > off.1 ∨ top r < 0 ∨ bottom r > off.2.

(** Two boxes of positive size share a point of positive area. *)
Definition overlaps (a b : Rect) : Prop :=
  x a < x b + w b ∧ x b < x a + w a ∧ y a < y b + h b ∧ y b < y a + h a.


(** The events that end the scan of [handle_events]: a quit request or a
    key-down of a bound key. *)
Definition actionable (e : event) : bool :=
  match e with
  | QUIT => true
  | KEYDOWN key => in_KEYS_values key
  | _ => false
  end.

(** A dispatcher that only records the keys it is called with. *)
Definition record_key (key : Z) (log : list Z) : result (list Z) :=
  Ok (log ++ [key]).

(** A random source that yields the listed draws, then zeros. *)
Definition draws (l : list Z) : rng := fun n => nth n l 0.

(** Both coordinates of [r] are multiples of the grid cell size. *)
Definition grid_aligned (stg : Settings) (r : Rect) : Prop :=
  (GRID_SIZE stg | x r) ∧ (GRID_SIZE stg | y r).

(** The box [r] lies within the playfield. *)
Definition inside_playfield (off : Z * Z) (r : Rect) : Prop :=
  0 ≤ left r ∧ right r ≤ off.1 ∧ 0 ≤ top r ∧ bottom r ≤ off.2.

(** [settings.py] with another snake speed. *)
Definition with_SNAKE_SPEED (stg : Settings) (v : Z) : Settings :=
  mkSettings (WINDOW_WIDTH stg) (WINDOW_HEIGHT stg) (GLOBAL_FPS stg)
    (GRID_SIZE stg) v (SNAKE_INIT_LENGTH stg).

(** [settings.py] with another initial length. *)
Definition with_SNAKE_INIT_LENGTH (stg : Settings) (n : Z) : Settings :=
  mkSettings (WINDOW_WIDTH stg) (WINDOW_HEIGHT stg) (GLOBAL_FPS stg)
    (GRID_SIZE stg) (SNAKE_SPEED stg) n.

(** Startup rejects a configuration: building the game fails, whatever the
    random source. *)
Definition rejected_at_startup (stg : Settings) : Prop :=
  ∀ r, ∃ e, SnakeGame_init (T:=Q) stg (GLOBAL_FPS stg) r = Raise e.

(** The head of the snake of a game, if any. *)
Definition game_head {T : Type} (g : SnakeGame T) : option GameObject :=
  parts (snake g) !! 0%nat.

(** Every part has the default step size, [GRID_SIZE]. *)
Definition uniform_step {T} (stg : Settings) (s : Snake T) : Prop :=
  Forall (fun p => step_size p = GRID_SIZE stg) (parts s).

(** The box a part would occupy one step further along its direction. *)
Definition ahead (stg : Settings) (q : GameObject) : Rect :=
  move (bounds q)
    (get_velocity (direction q) (speed q) (GRID_SIZE stg)).1
    (get_velocity (direction q) (speed q) (GRID_SIZE stg)).2.

(** Every part is exactly one step behind its predecessor: advanced along
    its own direction it would fill the predecessor's box. *)
Definition linked (stg : Settings) (ps : list GameObject) : Prop :=
  ∀ i p q, ps !! i = Some p → ps !! S i = Some q → bounds p = ahead stg q.

(** The same, by recursion on the parts behind [p]. *)
Fixpoint chain (stg : Settings) (p : GameObject) (ps : list GameObject)
    : Prop :=
  match ps with
  | [] => True
  | q :: rest => bounds p = ahead stg q ∧ chain stg q rest
  end.

(** A moving snake whose head fills one grid cell and whose parts are
    linked. *)
Definition well_formed (stg : Settings) (ps : list GameObject) : Prop :=
  ∃ hd rest, ps = hd :: rest ∧ speed hd ≠ 0
    ∧ w (bounds hd) = GRID_SIZE stg ∧ h (bounds hd) = GRID_SIZE stg
    ∧ chain stg hd rest.

(** One head in front, one tail at the end, body segments in between. *)
Definition layout (ps : list GameObject) : Prop :=
  ∃ n, cls <$> ps = SnakeHead :: replicate n SnakeBody ++ [SnakeTail].

(** Every part points in one of the four directions. *)
Definition headings_valid (ps : list GameObject) : Prop :=
  Forall (fun p => 0 ≤ direction p ≤ 3) ps.

(** Where a part is and where it points. *)
Definition place (p : GameObject) : Z * Z * Z :=
  (x (bounds p), y (bounds p), direction p).

(** [n] calls of [Snake.move] in a row. *)
Fixpoint moves {T : Type} (stg : Settings) (n : nat) (s : Snake T)
    : result (Snake T) :=
  match n with
  | O => Ok s
  | S n' => s' ← Snake_move stg s; moves stg n' s'
  end.

(** The attributes of the game that key handlers and updates never
    touch. *)
Definition same_session {T : Type} (g g' : SnakeGame T) : Prop :=
  score g' = score g ∧ game_over g' = game_over g
  ∧ objects g' = objects g ∧ frame_rate g' = frame_rate g.




(** * Properties *)

(** ** Velocity *)

(** Evaluates the closed remainders and comparisons that appear once a
    direction is a numeral. *)
Ltac eval_direction :=
  unfold get_velocity, step_vector, neg1_pow, D_UP, D_RIGHT, D_DOWN, D_LEFT
    in *;
  repeat match goal with
  | |- context [?a `mod` ?b] =>
      let v := eval vm_compute in (a `mod` b) in
      progress change (a `mod` b) with v
  | |- context [?a =? ?b] =>
      let v := eval vm_compute in (a =? b) in
      progress change (a =? b) with v
  | |- context [bool_decide ?P] =>
      let v := eval vm_compute in (bool_decide P) in
      progress change (bool_decide P) with v
  end;
  cbv iota.

Lemma direction_cases (d : Z) :
  0 ≤ d ≤ 3 → d = D_UP ∨ d = D_RIGHT ∨ d = D_DOWN ∨ d = D_LEFT.
Proof. unfold D_UP, D_RIGHT, D_DOWN, D_LEFT. lia. Qed.

Lemma get_velocity_step_vector (d speed m : Z) :
  0 ≤ d ≤ 3 → get_velocity d speed m = step_vector d m.
Proof.
  intros Hd.
  destruct (direction_cases d Hd) as [-> | [-> | [-> | ->]]];
    eval_direction; f_equal; lia.
Qed.

(** C7: for each of the four directions and every speed and magnitude [m],
    [get_velocity] returns UP -> (0,-m), RIGHT -> (m,0), DOWN -> (0,m),
    LEFT -> (-m,0); the horizontal component is nonzero only for RIGHT and
    LEFT, the vertical one only for UP and DOWN; the sign is flipped exactly
    for the directions whose index is 0 modulo 3, which are UP and LEFT; and
    the speed argument has no influence. *)
Theorem get_velocity_correct (speed m : Z) :
  (get_velocity D_UP speed m = (0, - m)
   ∧ get_velocity D_RIGHT speed m = (m, 0)
   ∧ get_velocity D_DOWN speed m = (0, m)
   ∧ get_velocity D_LEFT speed m = (- m, 0))
  ∧ (∀ d, 0 ≤ d ≤ 3 →
       ((get_velocity d speed m).1 ≠ 0 → d = D_RIGHT ∨ d = D_LEFT)
       ∧ ((get_velocity d speed m).2 ≠ 0 → d = D_UP ∨ d = D_DOWN)
       ∧ (d `mod` 3 = 0 ↔ d = D_UP ∨ d = D_LEFT)
       ∧ get_velocity d speed m
         = (if bool_decide (d = D_UP ∨ d = D_LEFT)
            then (- (d `mod` 2 * m), - ((d + 1) `mod` 2 * m))
            else (d `mod` 2 * m, (d + 1) `mod` 2 * m)))
  ∧ (∀ d speed', get_velocity d speed' m = get_velocity d speed m).
Proof.
  split; [|split].
  - repeat split; eval_direction; f_equal; lia.
  - intros d Hd.
    destruct (direction_cases d Hd) as [-> | [-> | [-> | ->]]];
      eval_direction; cbn [fst snd];
      (split; [|split; [|split]]);
      try (intros; lia); try (f_equal; lia);
      try (split; intros; lia).
  - reflexivity.
Qed.

Lemma get_velocity_correct_witness :
  0 ≤ D_LEFT ≤ 3
  ∧ ((get_velocity D_LEFT 20 10).1 ≠ 0 → D_LEFT = D_RIGHT ∨ D_LEFT = D_LEFT)
  ∧ get_velocity D_LEFT 20 10 = (-10, 0).
Proof.
  assert (0 ≤ D_LEFT ≤ 3) as Hd by (vm_compute; split; discriminate).
  split; [exact Hd|].
  destruct (get_velocity_correct 20 10) as (_ & Hdir & _).
  destruct (Hdir D_LEFT Hd) as (H1 & _ & _ & H4).
  split; [exact H1 | exact H4].
Defined.

(** ** Steering *)

Lemma DIRECTIONS_bound (n : key_name) :
  DIRECTIONS !! KEYS n = Some (bound_direction n).
Proof. destruct n; reflexivity. Qed.

Lemma handle_eq (o : GameObject) (n : key_name) :
  0 ≤ direction o ≤ 3 →
  SnakeHead_handle (KEYS n) o
  = Ok (if perpendicular (direction o) (bound_direction n)
        then with_direction o (bound_direction n) else o).
Proof.
  intros Hd. destruct o as [c b col off spd d st]; simpl in Hd.
  destruct (direction_cases d Hd) as [-> | [-> | [-> | ->]]];
    destruct n; reflexivity.
Qed.

(** A key outside [KEYS] changes nothing. *)
Lemma handle_unbound (o : GameObject) (key : Z) :
  in_KEYS_values key = false → SnakeHead_handle key o = Ok o.
Proof.
  unfold in_KEYS_values, SnakeHead_handle. intros Hk.
  apply bool_decide_eq_false in Hk.
  rewrite !bool_decide_eq_false_2; [done | |];
    intros Hin; apply Hk; revert Hin;
    rewrite !elem_of_cons, !elem_of_nil; tauto.
Qed.

(** [handle] never raises: the guard implies that the key is in
    [DIRECTIONS]. *)
Lemma handle_total (o : GameObject) (key : Z) :
  ∃ o', SnakeHead_handle key o = Ok o'
        ∧ (o' = o ∨ ∃ n, key = KEYS n ∧ o' = with_direction o (bound_direction n)).
Proof.
  destruct (in_KEYS_values key) eqn:Hk.
  - apply bool_decide_eq_true in Hk.
    assert (∃ n, key = KEYS n) as [n ->].
    { repeat (apply elem_of_cons in Hk as [-> | Hk]); [by eexists ..|].
      by apply elem_of_nil in Hk. }
    unfold SnakeHead_handle.
    destruct (_ || _); [|by eauto].
    unfold getitem. rewrite DIRECTIONS_bound. simpl.
    eexists; split; [done|]. right. eauto.
  - rewrite handle_unbound by done. eauto.
Qed.

(** C4: with the head heading in direction [d] (one of the four), the key
    bound to a direction sets that direction exactly when it is
    perpendicular to [d] (LEFT and RIGHT only while heading vertically, UP
    and DOWN only while heading horizontally) and otherwise leaves the head
    as it is; heading RIGHT, the LEFT key changes nothing and the UP key
    turns the head UP. *)
Theorem handle_perpendicular (o : GameObject) (n : key_name) :
  0 ≤ direction o ≤ 3 →
  ∃ o', SnakeHead_handle (KEYS n) o = Ok o'
    ∧ (perpendicular (direction o) (bound_direction n) = true
       → o' = with_direction o (bound_direction n))
    ∧ (perpendicular (direction o) (bound_direction n) = false → o' = o)
    ∧ (direction o' ≠ direction o
       ↔ perpendicular (direction o) (bound_direction n) = true)
    ∧ (perpendicular (direction o) (bound_direction n)
       = match n with
         | LEFT | RIGHT => vertical (direction o)
         | UP | DOWN => horizontal (direction o)
         end)
    ∧ (direction o = D_RIGHT → n = LEFT → direction o' = D_RIGHT)
    ∧ (direction o = D_RIGHT → n = UP → direction o' = D_UP).
Proof.
  intros Hd. rewrite handle_eq by done. eexists; split; [done|].
  destruct o as [c b col off spd d st]; simpl in *.
  destruct (direction_cases d Hd) as [-> | [-> | [-> | ->]]];
    destruct n; vm_compute; repeat split; try done; intros; congruence.
Qed.

Lemma handle_perpendicular_witness :
  let o := mkGameObject SnakeHead (mkRect 90 180 10 10) (0, 165, 80)
             (480, 360) 20 D_RIGHT 10 in
  0 ≤ direction o ≤ 3
  ∧ SnakeHead_handle (KEYS UP) o = Ok (with_direction o D_UP)
  ∧ SnakeHead_handle (KEYS LEFT) o = Ok o.
Proof.
  intros o. split; [vm_compute; split; discriminate|]. split.
  - destruct (handle_perpendicular o UP) as (o' & Ho & Hp & _).
    { vm_compute; split; discriminate. }
    rewrite Ho. f_equal. apply Hp. reflexivity.
  - destruct (handle_perpendicular o LEFT) as (o' & Ho & _ & Hn & _).
    { vm_compute; split; discriminate. }
    rewrite Ho. f_equal. apply Hn. reflexivity.
Defined.

(** ** Moving and growing *)

Section Kinematics.

Context {T : Type} `{Clock T} (stg : Settings).

Lemma update_moving (o : GameObject) :
  speed o ≠ 0 →
  GameObject_update stg o
  = GameObject_move o
      (get_velocity (direction o) (speed o) (GRID_SIZE stg)).1
      (get_velocity (direction o) (speed o) (GRID_SIZE stg)).2.
Proof.
  intros Hs. unfold GameObject_update.
  destruct (Z.eqb_spec (speed o) 0) as [|_]; [done|]. simpl.
  by destruct (get_velocity (direction o) (speed o) (GRID_SIZE stg)).
Qed.

Lemma update_static (o : GameObject) :
  speed o = 0 → GameObject_update stg o = o.
Proof. intros Hs. unfold GameObject_update. by rewrite Hs. Qed.

Lemma update_direction (o : GameObject) :
  direction (GameObject_update stg o) = direction o.
Proof.
  unfold GameObject_update. destruct (negb _); [|done].
  by destruct (get_velocity (direction o) (speed o) (GRID_SIZE stg)).
Qed.

Lemma length_follow (tx ty td : Z) (ps : list GameObject) :
  length (follow tx ty td ps) = length ps.
Proof.
  revert tx ty td. induction ps as [|p ps IH]; intros; simpl; [done|].
  by rewrite IH.
Qed.

Lemma follow_adopts (tx ty td : Z) (ps : list GameObject) (i : nat)
    (p q : GameObject) :
  ps !! i = Some p → ps !! S i = Some q →
  ∃ q', follow tx ty td ps !! S i = Some q' ∧ adopts p q q'.
Proof.
  revert tx ty td i.
  induction ps as [|a ps IH]; intros tx ty td i Hp Hq; [done|].
  destruct i as [|i]; simpl in Hp, Hq.
  - injection Hp as ->. destruct ps as [|b ps]; [done|].
    injection Hq as ->. simpl. eexists; split; [reflexivity|].
    by repeat split.
  - simpl. by apply IH.
Qed.

(** What [Snake.move] computes on a snake with head [hd]. *)
Lemma Snake_move_eq (s : Snake T) (hd : GameObject)
    (rest : list GameObject) :
  parts s = hd :: rest →
  Snake_move stg s
  = Ok (with_parts s
          (GameObject_update stg hd
           :: follow (x (bounds hd)) (y (bounds hd)) (direction hd) rest)).
Proof. intros Hp. unfold Snake_move, head. by rewrite Hp. Qed.

(** What [Snake.grow] computes on a snake with head [hd]. *)
Lemma Snake_grow_eq (s : Snake T) (hd : GameObject)
    (rest : list GameObject) :
  parts s = hd :: rest →
  Snake_grow stg s
  = Ok (with_parts s
          (GameObject_update stg hd
           :: GameObject_init stg SnakeBody (x (bounds hd)) (y (bounds hd))
                (snake_color s) (snake_offset s) (speed hd) (direction hd)
           :: rest)).
Proof. intros Hp. unfold Snake_grow, head. by rewrite Hp. Qed.

(** C1, as the code has it: on every call each trailing part takes the
    position and the direction its predecessor had before the call; the
    head is updated by [GameObject.update], which leaves it in place when
    its speed is 0; a head of nonzero speed with the default step size
    (that of every part a snake is built from) advances by one step of
    [step_size] pixels along its direction.  So the movement claim of the
    specification holds for such a head pointing in one of the four
    directions. *)
Theorem move_follows_the_leader (s : Snake T) (hd : GameObject)
    (rest : list GameObject) :
  parts s = hd :: rest →
  ∃ s' hd',
    Snake_move stg s = Ok s'
    ∧ parts s' !! 0%nat = Some hd'
    ∧ length (parts s') = length (parts s)
    ∧ (∀ i p q, parts s !! i = Some p → parts s !! S i = Some q →
         ∃ q', parts s' !! S i = Some q' ∧ adopts p q q')
    ∧ (speed hd = 0 → hd' = hd)
    ∧ (speed hd ≠ 0 → step_size hd = GRID_SIZE stg →
       hd' = GameObject_move hd
               (get_velocity (direction hd) (speed hd) (step_size hd)).1
               (get_velocity (direction hd) (speed hd) (step_size hd)).2)
    ∧ (speed hd ≠ 0 → step_size hd = GRID_SIZE stg →
       0 ≤ direction hd ≤ 3 → move_as_specified s s')
    ∧ time s' = time s ∧ got_apple s' = got_apple s.
Proof.
  intros Hp. rewrite (Snake_move_eq s hd rest Hp).
  eexists _, _. split; [reflexivity|]. simpl.
  split; [reflexivity|]. split; [by rewrite Hp, length_follow|].
  assert (∀ i p q, parts s !! i = Some p → parts s !! S i = Some q →
            ∃ q', (GameObject_update stg hd
                   :: follow (x (bounds hd)) (y (bounds hd)) (direction hd)
                        rest) !! S i = Some q'
                  ∧ adopts p q q') as Hfollow.
  { intros i p q Hi HSi. rewrite Hp in Hi, HSi.
    destruct i as [|i]; simpl in Hi, HSi.
    - injection Hi as ->. destruct rest as [|q0 rest]; [done|].
      injection HSi as ->. simpl. eexists; split; [reflexivity|].
      by repeat split.
    - simpl. by eapply follow_adopts. }
  split; [exact Hfollow|].
  split; [apply update_static|].
  split; [intros Hs ->; by apply update_moving|].
  split; [|done].
  intros Hs Hst Hd. split; [|exact Hfollow].
  exists hd, (GameObject_update stg hd). rewrite Hp.
  split; [done|]. split; [done|]. unfold advanced. rewrite Hst.
  rewrite <- (get_velocity_step_vector _ (speed hd)) by done.
  by apply update_moving.
Qed.

Lemma follow_step_size (g tx ty td : Z) (ps : list GameObject) :
  Forall (fun p => step_size p = g) ps →
  Forall (fun p => step_size p = g) (follow tx ty td ps).
Proof.
  intros Hps. revert tx ty td.
  induction Hps as [|p ps Hp Hps IH]; intros; simpl; constructor; auto.
Qed.

Lemma update_step_size (o : GameObject) :
  step_size (GameObject_update stg o) = step_size o.
Proof.
  unfold GameObject_update. destruct (negb _); [|done].
  by destruct (get_velocity (direction o) (speed o) (GRID_SIZE stg)).
Qed.

Lemma uniform_step_move (s s' : Snake T) :
  uniform_step stg s → Snake_move stg s = Ok s' → uniform_step stg s'.
Proof.
  unfold uniform_step. intros Hu Hm.
  destruct (parts s) as [|hd rest] eqn:Hp.
  { unfold Snake_move, head in Hm. by rewrite Hp in Hm. }
  rewrite (Snake_move_eq s hd rest Hp) in Hm. injection Hm as <-. simpl.
  apply Forall_cons in Hu as [Hhd Hrest]. constructor.
  - by rewrite update_step_size.
  - by apply follow_step_size.
Qed.

Lemma uniform_step_grow (s s' : Snake T) :
  uniform_step stg s → Snake_grow stg s = Ok s' → uniform_step stg s'.
Proof.
  unfold uniform_step. intros Hu Hm.
  destruct (parts s) as [|hd rest] eqn:Hp.
  { unfold Snake_grow, head in Hm. by rewrite Hp in Hm. }
  rewrite (Snake_grow_eq s hd rest Hp) in Hm. injection Hm as <-. simpl.
  apply Forall_cons in Hu as [Hhd Hrest]. repeat constructor; [|done].
  by rewrite update_step_size.
Qed.


End Kinematics.

(** ** Construction and collisions *)

Lemma colliderect_overlaps (a b : Rect) :
  0 < w a → 0 < h a → 0 < w b → 0 < h b →
  colliderect a b = true ↔ overlaps a b.
Proof.
  intros Hwa Hha Hwb Hhb. unfold colliderect, overlaps.
  destruct (Z.eqb_spec (w a) 0); [lia|].
  destruct (Z.eqb_spec (h a) 0); [lia|].
  destruct (Z.eqb_spec (w b) 0); [lia|].
  destruct (Z.eqb_spec (h b) 0); [lia|]. simpl.
  rewrite !andb_true_iff, !Z.ltb_lt. lia.
Qed.

(** A box never collides with a copy of itself shifted by at least its own
    side along one axis. *)
Lemma colliderect_shifted (x0 y0 g dx dy : Z) (j : nat) :
  (1 ≤ j)%nat →
  (dx = 0 ∧ (dy = g ∨ dy = - g)) ∨ (dy = 0 ∧ (dx = g ∨ dx = - g)) →
  colliderect (mkRect x0 y0 g g)
    (mkRect (x0 - dx * Z.of_nat j) (y0 - dy * Z.of_nat j) g g)
  = false.
Proof.
  intros Hj Hd. unfold colliderect. simpl.
  destruct (Z.eqb_spec g 0) as [|Hg]; [done|]. simpl.
  apply not_true_is_false. rewrite !andb_true_iff, !Z.ltb_lt.
  intros [[[H1 H2] H3] H4].
  assert (1 ≤ Z.of_nat j) as Hj' by lia.
  destruct Hd as [[-> [-> | ->]] | [-> [-> | ->]]]; nia.
Qed.

Lemma get_velocity_axis (d spd g : Z) :
  let v := get_velocity d spd g in
  (v.1 = 0 ∧ (v.2 = g ∨ v.2 = - g)) ∨ (v.2 = 0 ∧ (v.1 = g ∨ v.1 = - g)).
Proof.
  unfold get_velocity, neg1_pow. simpl.
  assert (d `mod` 2 = 0 ∧ (d + 1) `mod` 2 = 1
          ∨ d `mod` 2 = 1 ∧ (d + 1) `mod` 2 = 0) as [[-> ->] | [-> ->]].
  { pose proof (Z.mod_pos_bound d 2 ltac:(lia)).
    rewrite (Zplus_mod d 1 2).
    assert (d `mod` 2 = 0 ∨ d `mod` 2 = 1) as [-> | ->] by lia;
      [left | right]; done. }
  - left. destruct (_ =? 0); lia.
  - right. destruct (_ =? 0); lia.
Qed.

Lemma foldl_alter_lookup {A : Type} (f : nat → A → A) (js : list nat)
    (l : list A) (j : nat) :
  NoDup js →
  foldl (fun l i => alter (f i) i l) l js !! j
  = if bool_decide (j ∈ js) then f j <$> l !! j else l !! j.
Proof.
  intros Hnd. revert l.
  induction Hnd as [|i js Hi Hnd IH]; intros l; simpl; [done|].
  rewrite IH. destruct (decide (j = i)) as [-> | Hne].
  - rewrite (bool_decide_eq_false_2 _ Hi).
    rewrite bool_decide_eq_true_2 by (by left).
    by rewrite list_lookup_alter_eq.
  - rewrite list_lookup_alter_ne by done.
    destruct (decide (j ∈ js)) as [Hin | Hnin].
    + rewrite !bool_decide_eq_true_2; [done | by right | done].
    + rewrite !bool_decide_eq_false_2; [done | | done].
      intros [-> | ?]%elem_of_cons; done.
Qed.

Section Construction.

Context {T : Type} `{Clock T} (stg : Settings).

Lemma iter_insert1 {A : Type} (n : nat) (a b c : A) :
  Nat.iter n (insert1 b) [a; c] = a :: replicate n b ++ [c].
Proof. induction n as [|n IH]; simpl; [done|]. by rewrite IH. Qed.

Lemma shift_body_lookup (dir spd : Z) (ps : list GameObject) (j : nat) :
  shift_body stg dir spd ps !! j
  = if bool_decide (1 ≤ j)%nat
    then (fun p =>
            GameObject_move p
              (- (get_velocity dir spd (GRID_SIZE stg)).1 * Z.of_nat j)
              (- (get_velocity dir spd (GRID_SIZE stg)).2 * Z.of_nat j))
         <$> ps !! j
    else ps !! j.
Proof.
  unfold shift_body.
  destruct (get_velocity dir spd (GRID_SIZE stg)) as [vx vy]. simpl.
  rewrite (foldl_alter_lookup
             (fun i p => GameObject_move p (- vx * Z.of_nat i)
                           (- vy * Z.of_nat i)))
    by apply NoDup_seq.
  destruct (decide (1 ≤ j)%nat) as [Hj | Hj].
  - rewrite (bool_decide_eq_true_2 (1 ≤ j)%nat) by done.
    destruct (decide (j ∈ seq 1 (length ps - 1))) as [Hin | Hnin].
    + by rewrite bool_decide_eq_true_2.
    + rewrite bool_decide_eq_false_2 by done.
      rewrite elem_of_seq in Hnin.
      rewrite (lookup_ge_None_2 ps j) by lia. done.
  - rewrite (bool_decide_eq_false_2 (1 ≤ j)%nat) by done.
    rewrite bool_decide_eq_false_2; [done|].
    rewrite elem_of_seq. lia.
Qed.

Lemma length_shift_body (dir spd : Z) (ps : list GameObject) :
  length (shift_body stg dir spd ps) = length ps.
Proof.
  unfold shift_body. generalize (seq 1 (length ps - 1)). intros js.
  revert ps. induction js as [|i js IH]; intros ps; simpl; [done|].
  rewrite IH. destruct (get_velocity dir spd (GRID_SIZE stg)).
  apply length_alter.
Qed.

(** The parts of a new snake: a head, [len] body segments and a tail, in
    a straight line behind the head. *)
Lemma Snake_init_parts (x0 y0 : Z) (col : ColorValue) (off : Z * Z)
    (spd dir len : Z) (j : nat) :
  parts (Snake_init (T:=T) stg x0 y0 col off spd dir len) !! j
  = if bool_decide (j < Z.to_nat len + 2)%nat then
      Some (GameObject_init stg
              (if bool_decide (j = 0%nat) then SnakeHead
               else if bool_decide (j = (Z.to_nat len + 1)%nat)
                    then SnakeTail else SnakeBody)
              (x0 - (get_velocity dir spd (GRID_SIZE stg)).1 * Z.of_nat j)
              (y0 - (get_velocity dir spd (GRID_SIZE stg)).2 * Z.of_nat j)
              col off spd dir)
    else None.
Proof.
  unfold Snake_init. simpl. rewrite shift_body_lookup, iter_insert1.
  set (n := Z.to_nat len).
  assert ((GameObject_init stg SnakeHead x0 y0 col off spd dir
           :: replicate n (GameObject_init stg SnakeBody x0 y0 col off spd dir)
           ++ [GameObject_init stg SnakeTail x0 y0 col off spd dir]) !! j
          = if bool_decide (j < n + 2)%nat then
              Some (GameObject_init stg
                      (if bool_decide (j = 0%nat) then SnakeHead
                       else if bool_decide (j = (n + 1)%nat)
                            then SnakeTail else SnakeBody)
                      x0 y0 col off spd dir)
            else None) as ->.
  { destruct j as [|j]; simpl.
    - by rewrite bool_decide_eq_true_2 by lia.
    - destruct (decide (j < n)%nat) as [Hj | Hj].
      + rewrite lookup_app_l by (by rewrite length_replicate).
        rewrite lookup_replicate_2 by done.
        rewrite bool_decide_eq_true_2 by lia.
        by rewrite (bool_decide_eq_false_2 (S j = (n + 1)%nat)) by lia.
      + rewrite lookup_app_r by (rewrite length_replicate; lia).
        rewrite length_replicate.
        destruct (decide (j = n)) as [-> | Hne].
        * rewrite Nat.sub_diag. simpl.
          rewrite bool_decide_eq_true_2 by lia.
          by rewrite (bool_decide_eq_true_2 (S n = (n + 1)%nat)) by lia.
        * rewrite bool_decide_eq_false_2 by lia.
          destruct (j - n)%nat as [|k] eqn:Hk; [lia|]. done. }
  destruct (decide (j < n + 2)%nat) as [Hj | Hj].
  - rewrite (bool_decide_eq_true_2 (j < n + 2)%nat) by done.
    destruct j as [|j].
    + simpl. unfold GameObject_init. do 3 f_equal; lia.
    + rewrite (bool_decide_eq_true_2 (1 ≤ S j)%nat) by lia. simpl.
      unfold GameObject_init, GameObject_move, with_bounds, move. simpl.
      do 3 f_equal; lia.
  - rewrite (bool_decide_eq_false_2 (j < n + 2)%nat) by done.
    by destruct (bool_decide (1 ≤ j)%nat).
Qed.

(** The parts a snake is built from have the step size [GRID_SIZE];
    moves and growths keep it so. *)
Lemma uniform_step_init (x0 y0 : Z) (col : ColorValue) (off : Z * Z)
    (spd dir len : Z) :
  uniform_step stg (Snake_init (T:=T) stg x0 y0 col off spd dir len).
Proof.
  unfold uniform_step. apply Forall_lookup. intros j p.
  rewrite Snake_init_parts. destruct (bool_decide _); [|done].
  by intros [= <-].
Qed.

End Construction.

Section Collision.

Context {T : Type} `{Clock T} (stg : Settings).

Lemma wall_test_outside (off : Z * Z) (r : Rect) :
  (left r <? 0) || (right r >? off.1) || (top r <? 0)
    || (bottom r >? off.2) = true
  ↔ outside_playfield off r.
Proof.
  unfold outside_playfield.
  rewrite !orb_true_iff, !Z.ltb_lt, !Z.gtb_gt. tauto.
Qed.

Lemma check_collision_spec (s : Snake T) (hd : GameObject)
    (rest : list GameObject) :
  parts s = hd :: rest →
  ∃ b, Snake_check_collision s = Ok b
    ∧ (b = true
       ↔ outside_playfield (snake_offset s) (bounds hd)
         ∨ ∃ i part, (1 ≤ i)%nat ∧ parts s !! i = Some part
                     ∧ colliderect (bounds hd) (bounds part) = true).
Proof.
  intros Hp. unfold Snake_check_collision, head. rewrite Hp. simpl.
  pose proof (wall_test_outside (snake_offset s) (bounds hd)) as Hw.
  destruct (_ || _) eqn:Hwall.
  - eexists; split; [done|]. split; [|done]. intros _. left. by apply Hw.
  - eexists; split; [done|]. rewrite existsb_exists. split.
    + intros (part & Hin & Hc). right.
      apply list_elem_of_In, list_elem_of_lookup in Hin as [i Hi].
      exists (S i), part. split; [lia|]. done.
    + intros [Hout | (i & part & Hi & Hl & Hc)].
      * apply Hw in Hout. done.
      * destruct i as [|i]; [lia|]. simpl in Hl.
        exists part. split; [|done].
        apply list_elem_of_In, list_elem_of_lookup. eauto.
Qed.

Lemma check_collision_fresh (x0 y0 : Z) (col : ColorValue) (off : Z * Z)
    (spd dir len : Z) :
  0 ≤ x0 → x0 + GRID_SIZE stg ≤ off.1 →
  0 ≤ y0 → y0 + GRID_SIZE stg ≤ off.2 →
  Snake_check_collision (Snake_init (T:=T) stg x0 y0 col off spd dir len)
  = Ok false.
Proof.
  intros Hx0 Hx1 Hy0 Hy1.
  set (s := Snake_init (T:=T) stg x0 y0 col off spd dir len).
  pose proof (Snake_init_parts stg x0 y0 col off spd dir len) as Hparts.
  pose proof (get_velocity_axis dir spd (GRID_SIZE stg)) as Haxis.
  fold s in Hparts. cbv zeta in Haxis.
  set (vx := (get_velocity dir spd (GRID_SIZE stg)).1) in *.
  set (vy := (get_velocity dir spd (GRID_SIZE stg)).2) in *.
  assert (snake_offset s = off) as Hoff by done.
  clearbody s vx vy.
  pose proof (Hparts 0%nat) as H0.
  rewrite !bool_decide_eq_true_2 in H0 by lia.
  destruct (parts s) as [|hd rest] eqn:Hp; [done|].
  injection H0 as Hhd.
  destruct (check_collision_spec s hd rest Hp) as (b & Hb & Hiff).
  rewrite Hb. f_equal. apply not_true_is_false. intros Htrue.
  apply Hiff in Htrue as [Hout | (i & part & Hi & Hl & Hc)].
  - rewrite Hhd, Hoff in Hout.
    unfold outside_playfield, left, right, top, bottom, GameObject_init
      in Hout.
    cbn [bounds x y w h] in Hout. lia.
  - rewrite Hp, Hparts in Hl.
    destruct (bool_decide (i < Z.to_nat len + 2)%nat); [|done].
    injection Hl as <-. rewrite Hhd in Hc.
    unfold GameObject_init in Hc. cbn [bounds] in Hc.
    replace (x0 - vx * Z.of_nat 0) with x0 in Hc by lia.
    replace (y0 - vy * Z.of_nat 0) with y0 in Hc by lia.
    rewrite colliderect_shifted in Hc; done.
Qed.

(** C2: [check_collision] answers true exactly when the head's box is
    outside the playfield (left < 0, right > width, top < 0 or
    bottom > height) or collides with the box of a part at an index of at
    least 1; it answers false on a newly built snake, whatever its length,
    whose head is inside the playfield. *)
Theorem check_collision_correct :
  (∀ (s : Snake T) (hd : GameObject) (rest : list GameObject),
     parts s = hd :: rest →
     ∃ b, Snake_check_collision s = Ok b
       ∧ (b = true
          ↔ outside_playfield (snake_offset s) (bounds hd)
            ∨ ∃ i part, (1 ≤ i)%nat ∧ parts s !! i = Some part
                        ∧ colliderect (bounds hd) (bounds part) = true))
  ∧ (∀ (x0 y0 : Z) (col : ColorValue) (off : Z * Z) (spd dir len : Z),
       0 ≤ x0 → x0 + GRID_SIZE stg ≤ off.1 →
       0 ≤ y0 → y0 + GRID_SIZE stg ≤ off.2 →
       Snake_check_collision
         (Snake_init (T:=T) stg x0 y0 col off spd dir len)
       = Ok false).
Proof.
  split.
  - apply check_collision_spec.
  - apply check_collision_fresh.
Qed.

End Collision.

(** ** The movement cadence *)

Section Cadence.

Context {T : Type} `{Clock T} (stg : Settings).

Lemma Snake_update_eq (dt : T) (s : Snake T) (hd : GameObject)
    (rest : list GameObject) :
  parts s = hd :: rest → speed hd ≠ 0 →
  Snake_update stg dt s
  = if t_gt (time s) (t_inv (speed hd)) then
      s' ← (if got_apple s
             then s1 ← Snake_grow stg s; Ok (with_got_apple s1 false)
             else Snake_move stg s);
      Ok (with_time s' t_zero)
    else Ok (with_time s (t_add (time s) dt)).
Proof.
  intros Hp Hs. unfold Snake_update, head, one_over. rewrite Hp. simpl.
  by destruct (Z.eqb_spec (speed hd) 0).
Qed.

(** With speed 0 the cadence [1 / speed] cannot be computed. *)
Lemma Snake_update_zero_speed (dt : T) (s : Snake T) (hd : GameObject)
    (rest : list GameObject) :
  parts s = hd :: rest → speed hd = 0 →
  Snake_update stg dt s = Raise ZeroDivisionError.
Proof.
  intros Hp Hs. unfold Snake_update, head, one_over. rewrite Hp. simpl.
  by rewrite Hs.
Qed.

(** With a nonzero speed [update] raises nothing. *)
Lemma Snake_update_ok (dt : T) (s : Snake T) (hd : GameObject)
    (rest : list GameObject) :
  parts s = hd :: rest → speed hd ≠ 0 →
  ∃ s', Snake_update stg dt s = Ok s'.
Proof.
  intros Hp Hs. rewrite (Snake_update_eq dt s hd rest Hp Hs).
  rewrite (Snake_grow_eq stg s hd rest Hp), (Snake_move_eq stg s hd rest Hp).
  destruct (t_gt _ _); [|by eexists].
  destruct (got_apple s); by eexists.
Qed.



End Cadence.

(** ** Input events *)

Lemma handle_events_loop_find {G : Type} (dispatch : Z → G → result G)
    (events : list event) (g : G) :
  handle_events_loop dispatch events g
  = match find actionable events with
    | Some (KEYDOWN key) => dispatch key g
    | Some _ => Raise SystemExit
    | None => Ok g
    end.
Proof.
  induction events as [|e events IH]; simpl; [done|].
  destruct e as [|key|key|ty]; simpl; try done.
  by destruct (in_KEYS_values key).
Qed.

(** Everything behind the first bound key-down is dropped. *)
Lemma handle_events_loop_first {G : Type} (dispatch : Z → G → result G)
    (before after : list event) (key : Z) (g : G) :
  Forall (fun e => actionable e = false) before →
  in_KEYS_values key = true →
  handle_events_loop dispatch (before ++ KEYDOWN key :: after) g
  = dispatch key g.
Proof.
  intros Hb Hk. induction Hb as [|e before He Hb IH]; simpl.
  - by rewrite Hk.
  - destruct e as [|k|k|ty]; simpl in He; try done. by rewrite He.
Qed.

(** C10: of all the events queued in a frame, [handle_events] dispatches at
    most one: the handlers run for the first key-down of a bound key (if no
    quit request comes before it) and for nothing else; the events behind it
    never reach a handler, and the queue is empty afterwards. *)
Theorem handle_events_dispatches_at_most_one {T : Type}
    (queue : list event) (g : SnakeGame T) :
  Game_handle_events queue g
  = match find actionable queue with
    | Some (KEYDOWN key) => g' ← dispatch_keydown key g; Ok (g', [])
    | Some _ => Raise SystemExit
    | None => Ok (g, [])
    end
  ∧ (∀ before key after,
       queue = before ++ KEYDOWN key :: after →
       Forall (fun e => actionable e = false) before →
       in_KEYS_values key = true →
       Game_handle_events queue g
       = Game_handle_events (before ++ [KEYDOWN key]) g
       ∧ handle_events_loop record_key queue [] = Ok [key])
  ∧ (∀ log, handle_events_loop record_key queue [] = Ok log →
       (length log ≤ 1)%nat
       ∧ ∀ key, key ∈ log → find actionable queue = Some (KEYDOWN key)
                            ∧ in_KEYS_values key = true)
  ∧ (∀ g' queue', Game_handle_events queue g = Ok (g', queue') →
       queue' = []).
Proof.
  split; [|split; [|split]].
  - unfold Game_handle_events. rewrite handle_events_loop_find.
    destruct (find actionable queue) as [[| | |]|]; done.
  - intros before key after -> Hb Hk. unfold Game_handle_events.
    by rewrite !handle_events_loop_first.
  - intros log. rewrite handle_events_loop_find.
    destruct (find actionable queue) as [e|] eqn:Hf.
    + apply find_some in Hf as [_ Ha].
      destruct e as [|key|key|ty]; try done.
      unfold record_key. simpl. intros [= <-]. split; [simpl; lia|].
      intros k Hk. apply list_elem_of_singleton in Hk as ->. done.
    + intros [= <-]. split; [simpl; lia|]. intros k Hk.
      by apply elem_of_nil in Hk.
  - intros g' queue'. unfold Game_handle_events.
    destruct (handle_events_loop _ _ _); simpl; [|done]. by intros [= _ <-].
Qed.

(** ** The apple *)

Lemma randrange_unit_step (stop : Z) (r : rng) (v : Z) (r' : rng) :
  randrange 0 stop 1 r = Ok (v, r') → 0 ≤ v < stop.
Proof.
  unfold randrange. simpl.
  replace (stop - 0 + 1 - 1) with stop by lia. rewrite Z.div_1_r.
  destruct (Z.leb_spec stop 0) as [|Hpos]; [done|].
  intros [= <- _]. pose proof (Z.mod_pos_bound (r 0%nat) stop Hpos). lia.
Qed.

Lemma randrange_multiple (stop step : Z) (r : rng) (v : Z) (r' : rng) :
  randrange 0 stop step r = Ok (v, r') → (step | v).
Proof.
  unfold randrange. destruct (step =? 0); [done|].
  destruct (_ <=? 0); [done|]. simpl. intros [= <- _].
  exists (r 0%nat `mod` (if 0 <? step then (stop - 0 + step - 1) `div` step
                         else (stop - 0 + step + 1) `div` step)).
  lia.
Qed.

(** [randrange(0, stop)] can return every value of its range. *)
Lemma randrange_any (stop v : Z) (r : rng) :
  0 ≤ v < stop → r 0%nat = v →
  randrange 0 stop 1 r = Ok (v, fun n => r (S n)).
Proof.
  intros Hv Hr. unfold randrange. simpl.
  replace (stop - 0 + 1 - 1) with stop by lia. rewrite Z.div_1_r.
  destruct (Z.leb_spec stop 0) as [|Hpos]; [lia|].
  rewrite Hr, Z.mod_small by lia. do 2 f_equal. lia.
Qed.

Section AppleFacts.

Context {T : Type} `{Clock T} (stg : Settings).

(** A respawned apple lies within the playfield. *)
Lemma respawn_inside (a a' : Apple) (r r' : rng) :
  Apple_respawn a r = Ok (a', r') →
  inside_playfield (offset (apple_obj a)) (bounds (apple_obj a'))
  ∧ offset (apple_obj a') = offset (apple_obj a)
  ∧ w (bounds (apple_obj a')) = w (bounds (apple_obj a))
  ∧ h (bounds (apple_obj a')) = h (bounds (apple_obj a)).
Proof.
  unfold Apple_respawn.
  destruct (randrange 0 _ 1 r) as [[vx r1]|] eqn:Hx; [|done]. simpl.
  destruct (randrange 0 _ 1 r1) as [[vy r2]|] eqn:Hy; [|done]. simpl.
  intros [= <- _]. simpl.
  apply randrange_unit_step in Hx, Hy.
  unfold inside_playfield, left, right, top, bottom. simpl in *.
  repeat split; try done; lia.
Qed.

(** Every position of the range can be chosen, aligned or not. *)
Lemma respawn_any (a : Apple) (vx vy : Z) (r : rng) :
  0 ≤ vx < (offset (apple_obj a)).1 - w (bounds (apple_obj a)) →
  0 ≤ vy < (offset (apple_obj a)).2 - h (bounds (apple_obj a)) →
  r 0%nat = vx → r 1%nat = vy →
  ∃ a' r', Apple_respawn a r = Ok (a', r')
    ∧ bounds (apple_obj a')
      = mkRect vx vy (w (bounds (apple_obj a))) (h (bounds (apple_obj a))).
Proof.
  intros Hx Hy Hr0 Hr1. unfold Apple_respawn.
  rewrite (randrange_any _ vx r Hx Hr0). simpl.
  rewrite (randrange_any _ vy (fun n => r (S n)) Hy Hr1). simpl.
  eexists _, _. split; reflexivity.
Qed.

(** When the rejection loop ends normally, the apple touches no part of
    the snake. *)
Lemma respawn_loop_clear (fuel : nat) (s : Snake T) (a a' : Apple)
    (r r' : rng) :
  respawn_loop fuel s a r = Some (Ok (a', r')) →
  Snake_colliderect s (bounds (apple_obj a')) = false
  ∧ ∀ part, part ∈ parts s →
      colliderect (bounds part) (bounds (apple_obj a')) = false.
Proof.
  revert a r. induction fuel as [|fuel IH]; intros a r; simpl; [done|].
  destruct (Snake_colliderect s (bounds (apple_obj a))) eqn:Hc.
  - destruct (Apple_respawn a r) as [[a1 r1]|]; [apply IH | done].
  - intros [= <- _]. split; [done|]. intros part Hin.
    unfold Snake_colliderect in Hc.
    destruct (colliderect (bounds part) (bounds (apple_obj a))) eqn:Hp;
      [|done].
    assert (existsb (fun part => colliderect (bounds part)
                                   (bounds (apple_obj a))) (parts s)
            = true) as Hex; [|congruence].
    apply existsb_exists. exists part. by rewrite <- list_elem_of_In.
Qed.

(** What [SnakeGame.__init__] builds. *)
Lemma SnakeGame_init_inv (fps : Z) (r r' : rng) (g : SnakeGame T) :
  SnakeGame_init stg fps r = Ok (g, r') →
  ∃ x0 y0 ax ay,
    snake g = Snake_init stg x0 y0 (0, 165, 80)
                (WINDOW_WIDTH stg, WINDOW_HEIGHT stg) (SNAKE_SPEED stg) 1
                (SNAKE_INIT_LENGTH stg)
    ∧ apple g = Apple_init stg ax ay
                  (WINDOW_WIDTH stg, WINDOW_HEIGHT stg) (110, 203, 60)
    ∧ (GRID_SIZE stg | ax) ∧ (GRID_SIZE stg | ay)
    ∧ objects g = [the_snake; the_apple]
    ∧ game_over g = false ∧ score g = 0 ∧ frame_rate g = fps.
Proof.
  unfold SnakeGame_init.
  destruct (SNAKE_INIT_X stg) as [x0|]; [|done]. simpl.
  destruct (SNAKE_INIT_Y stg) as [y0|]; [|done]. simpl.
  destruct (randrange 0 _ _ r) as [[ax r1]|] eqn:Hx; [|done]. simpl.
  destruct (randrange 0 _ _ r1) as [[ay r2]|] eqn:Hy; [|done]. simpl.
  intros [= <- _]. simpl.
  apply randrange_multiple in Hx, Hy.
  exists x0, y0, ax, ay. done.
Qed.

(** The first placement of the apple, in [SnakeGame.__init__], is on the
    grid. *)
Lemma init_apple_aligned (fps : Z) (r r' : rng) (g : SnakeGame T) :
  SnakeGame_init stg fps r = Ok (g, r') →
  grid_aligned stg (bounds (apple_obj (apple g))).
Proof.
  intros (x0 & y0 & ax & ay & _ & -> & Hx & Hy & _)%SnakeGame_init_inv.
  by split.
Qed.

End AppleFacts.

(** C8, evaluated: the apple of a new game lies on the snake's head; the
    consumption handler respawns it with the draws 3 and 7 and returns with
    the apple at (3, 7), inside the playfield and clear of the snake, but
    not on the grid of cell size 10. *)
Theorem respawn_ignores_grid :
  ∃ g r g' r',
    SnakeGame_init (T:=Q) settings_py 60 (draws [9; 18; 3; 7]) = Ok (g, r)
    ∧ bounds (apple_obj (apple g)) = mkRect 90 180 10 10
    ∧ check_apple_snake_collision g = Ok true
    ∧ get_apple 2 g r = Some (Ok (g', r'))
    ∧ bounds (apple_obj (apple g')) = mkRect 3 7 10 10
    ∧ Snake_colliderect (snake g') (bounds (apple_obj (apple g'))) = false
    ∧ inside_playfield (480, 360) (bounds (apple_obj (apple g')))
    ∧ ¬ grid_aligned settings_py (bounds (apple_obj (apple g'))).
Proof.
  eexists _, _, _, _.
  split; [vm_compute; reflexivity|].
  split; [reflexivity|]. split; [reflexivity|].
  split; [vm_compute; reflexivity|].
  split; [reflexivity|]. split; [reflexivity|].
  split; [vm_compute; intuition discriminate|].
  intros [[k Hk] _]. simpl in Hk. lia.
Qed.

(** ** Startup *)

Section Startup.

Context {T : Type} `{Clock T}.

Lemma init_snake_head (stg : Settings) (fps : Z) (r r' : rng)
    (g : SnakeGame T) :
  SnakeGame_init stg fps r = Ok (g, r') →
  ∃ hd rest, parts (snake g) = hd :: rest ∧ speed hd = SNAKE_SPEED stg
             ∧ direction hd = D_RIGHT
             ∧ objects g = [the_snake; the_apple].
Proof.
  intros (x0 & y0 & ax & ay & Hs & _ & _ & _ & Ho & _)%SnakeGame_init_inv.
  pose proof (Snake_init_parts (T:=T) stg x0 y0 (0, 165, 80)
                (WINDOW_WIDTH stg, WINDOW_HEIGHT stg) (SNAKE_SPEED stg) 1
                (SNAKE_INIT_LENGTH stg) 0%nat) as H0.
  rewrite <- Hs in H0. rewrite bool_decide_eq_true_2 in H0 by lia.
  destruct (parts (snake g)) as [|hd rest]; [done|].
  injection H0 as ->. eexists _, rest. done.
Qed.

(** C9, as the code has it: startup never looks at the snake speed (nor
    at the frame rate), so a configuration with speed 0 starts whenever
    the same configuration with another speed does; the first
    [Game.update] of the loop then raises [ZeroDivisionError], which no
    nonzero speed does. *)
Theorem zero_speed_fails_in_first_update (stg : Settings) (fps : Z)
    (r r' : rng) (g : SnakeGame T) :
  SnakeGame_init stg fps r = Ok (g, r') →
  (∀ v fps', ∃ g'',
      SnakeGame_init (T:=T) (with_SNAKE_SPEED stg v) fps' r = Ok (g'', r'))
  ∧ (SNAKE_SPEED stg = 0 →
     ∀ dt, Game_update stg dt g = Raise ZeroDivisionError)
  ∧ (SNAKE_SPEED stg ≠ 0 → ∀ dt, ∃ g', Game_update stg dt g = Ok g').
Proof.
  intros Hinit. split; [|split].
  - intros v fps'. revert Hinit. unfold SnakeGame_init.
    change (SNAKE_INIT_X (with_SNAKE_SPEED stg v)) with (SNAKE_INIT_X stg).
    change (SNAKE_INIT_Y (with_SNAKE_SPEED stg v)) with (SNAKE_INIT_Y stg).
    cbn [with_SNAKE_SPEED WINDOW_WIDTH WINDOW_HEIGHT GRID_SIZE].
    destruct (SNAKE_INIT_X stg) as [x0|]; [|done]. simpl.
    destruct (SNAKE_INIT_Y stg) as [y0|]; [|done]. simpl.
    destruct (randrange 0 _ _ r) as [[ax r1]|]; [|done]. simpl.
    destruct (randrange 0 _ _ r1) as [[ay r2]|]; [|done]. simpl.
    intros [= _ <-]. by eexists.
  - intros Hz dt.
    destruct (init_snake_head stg fps r r' g Hinit)
      as (hd & rest & Hp & Hs & _ & Ho).
    unfold Game_update. rewrite Ho. simpl.
    rewrite (Snake_update_zero_speed stg dt _ hd rest Hp); [done|].
    by rewrite Hs.
  - intros Hnz dt.
    destruct (init_snake_head stg fps r r' g Hinit)
      as (hd & rest & Hp & Hs & _ & Ho).
    unfold Game_update. rewrite Ho. simpl.
    destruct (Snake_update_ok stg dt (snake g) hd rest Hp) as (s' & ->).
    { by rewrite Hs. }
    simpl. by eexists.
Qed.

End Startup.

(** C9 as the specification words it fails: the configuration of
    [settings.py] with snake speed 0 is not rejected, the game is built,
    and the first frame of the loop ends in [ZeroDivisionError]. *)
Lemma zero_speed_not_rejected :
  ¬ rejected_at_startup (with_SNAKE_SPEED settings_py 0)
  ∧ ∃ g r,
      SnakeGame_init (T:=Q) (with_SNAKE_SPEED settings_py 0) 60
        (draws [30; 5]) = Ok (g, r)
      ∧ Game_run (with_SNAKE_SPEED settings_py 0) 1 [([], (17 # 1000)%Q)]
          g r
        = Some (Raise ZeroDivisionError).
Proof.
  split.
  - intros Hrej. destruct (Hrej (draws [30; 5])) as [e He].
    vm_compute in He. discriminate.
  - eexists _, _. split; vm_compute; reflexivity.
Qed.

Lemma zero_speed_fails_in_first_update_witness :
  ∃ g r,
    SnakeGame_init (T:=Q) (with_SNAKE_SPEED settings_py 0) 60
      (draws [30; 5]) = Ok (g, r)
    ∧ Game_update (with_SNAKE_SPEED settings_py 0) (1 # 10)%Q g
      = Raise ZeroDivisionError.
Proof.
  eexists _, _. split; [vm_compute; reflexivity|].
  refine (proj1 (proj2 (zero_speed_fails_in_first_update
                          (with_SNAKE_SPEED settings_py 0) 60
                          (draws [30; 5]) _ _ _)) eq_refl (1 # 10)%Q).
  vm_compute; reflexivity.
Defined.

(** ** Reversal *)

(** One accepted key never turns the head around. *)
Lemma handle_never_reverses (key : Z) (o o' : GameObject) :
  0 ≤ direction o ≤ 3 →
  SnakeHead_handle key o = Ok o' →
  0 ≤ direction o' ≤ 3 ∧ direction o' ≠ opposite (direction o).
Proof.
  intros Hd Ho.
  destruct (handle_total o key) as (o1 & Ho1 & [-> | (n & -> & ->)]).
  - rewrite Ho1 in Ho. injection Ho as <-. split; [done|].
    destruct (direction_cases _ Hd) as [-> | [-> | [-> | ->]]]; done.
  - rewrite handle_eq in Ho by done.
    destruct o as [c b col off spd d st]; simpl in *.
    destruct (direction_cases d Hd) as [-> | [-> | [-> | ->]]];
      destruct n; injection Ho as <-; vm_compute;
      (split; [split|]; discriminate).
Qed.

(** C5, evaluated on a game with the settings of [settings.py]: the head
    moves RIGHT in the second frame; an UP key in the third frame and a LEFT
    key in the fourth are both accepted while the snake waits for its next
    step, so the head, still where the step left it, now points LEFT, the
    opposite of the heading it moved with; the next step, in the sixth
    frame, takes it back LEFT. *)
Theorem head_reverses_between_moves :
  let tick := (17 # 1000)%Q in
  let inputs := [([], tick); ([], tick); ([KEYDOWN K_UP], tick);
                 ([KEYDOWN K_LEFT], tick); ([], tick); ([], tick)] in
  let place := fun g : SnakeGame Q =>
    (fun p => (x (bounds p), y (bounds p), direction p)) <$> game_head g in
  ∃ g0 r0 g2 r2 g4 r4 g6 r6,
    SnakeGame_init (T:=Q) settings_py 60 (draws [30; 5]) = Ok (g0, r0)
    ∧ Game_run settings_py 1 (take 2 inputs) g0 r0 = Some (Ok (g2, r2))
    ∧ Game_run settings_py 1 (take 4 inputs) g0 r0 = Some (Ok (g4, r4))
    ∧ Game_run settings_py 1 inputs g0 r0 = Some (Ok (g6, r6))
    ∧ place g0 = Some (90, 180, D_RIGHT)
    ∧ place g2 = Some (100, 180, D_RIGHT)
    ∧ place g4 = Some (100, 180, opposite D_RIGHT)
    ∧ place g6 = Some (90, 180, D_LEFT)
    ∧ opposite D_RIGHT = D_LEFT.
Proof.
  intros tick inputs place. eexists _, _, _, _, _, _, _, _.
  split; [vm_compute; reflexivity|].
  split; [vm_compute; reflexivity|].
  split; [vm_compute; reflexivity|].
  split; [vm_compute; reflexivity|].
  repeat split; reflexivity.
Qed.

(** With one body segment the same input runs the head into the snake's
    own tail, and the seventh frame ends the game. *)
Lemma reversal_ends_the_game :
  let stg := with_SNAKE_INIT_LENGTH settings_py 1 in
  let tick := (17 # 1000)%Q in
  let inputs := [([], tick); ([], tick); ([KEYDOWN K_UP], tick);
                 ([KEYDOWN K_LEFT], tick); ([], tick); ([], tick);
                 ([], tick)] in
  ∃ g0 r0 g6 r6 g7 r7,
    SnakeGame_init (T:=Q) stg 60 (draws [30; 5]) = Ok (g0, r0)
    ∧ Game_run stg 1 (take 6 inputs) g0 r0 = Some (Ok (g6, r6))
    ∧ Game_run stg 1 inputs g0 r0 = Some (Ok (g7, r7))
    ∧ Snake_check_collision (snake g0) = Ok false
    ∧ Snake_check_collision (snake g6) = Ok true
    ∧ game_over g6 = false ∧ game_over g7 = true.
Proof.
  intros stg tick inputs. eexists _, _, _, _, _, _.
  split; [vm_compute; reflexivity|].
  split; [vm_compute; reflexivity|].
  split; [vm_compute; reflexivity|].
  repeat split; reflexivity.
Qed.

(** ** Instances on concrete snakes and games *)

(** C1 as the specification words it fails on a snake with speed 0:
    [move] leaves the head in place while the tail takes the head's
    cell. *)
Lemma static_snake_does_not_advance :
  ∃ s',
    Snake_move settings_py
      (Snake_init (T:=Q) settings_py 40 40 (0, 165, 80) (480, 360) 0 1 0)
    = Ok s'
    ∧ (bounds <$> parts s' !! 0%nat) = Some (mkRect 40 40 10 10)
    ∧ ¬ move_as_specified
          (Snake_init (T:=Q) settings_py 40 40 (0, 165, 80) (480, 360) 0 1 0)
          s'.
Proof.
  eexists. split; [reflexivity|]. split; [reflexivity|].
  intros [(hd & hd' & H0 & H0' & Hadv) _].
  vm_compute in H0, H0'. injection H0 as <-. injection H0' as <-.
  unfold advanced in Hadv. vm_compute in Hadv. discriminate.
Qed.

Lemma move_follows_the_leader_witness :
  ∃ s',
    Snake_move settings_py
      (Snake_init (T:=Q) settings_py 90 180 (0, 165, 80) (480, 360) 20 1 1)
    = Ok s'
    ∧ move_as_specified
        (Snake_init (T:=Q) settings_py 90 180 (0, 165, 80) (480, 360) 20 1 1)
        s'.
Proof.
  destruct (move_follows_the_leader settings_py
              (Snake_init (T:=Q) settings_py 90 180 (0, 165, 80) (480, 360)
                 20 1 1)
              _ _ eq_refl)
    as (s' & hd' & Hm & _ & _ & _ & _ & _ & Hspec & _).
  exists s'. split; [exact Hm|].
  apply Hspec; [discriminate | reflexivity | split; discriminate].
Defined.


Lemma check_collision_correct_witness :
  Snake_check_collision
    (Snake_init (T:=Q) settings_py 90 180 (0, 165, 80) (480, 360) 20 1 3)
  = Ok false.
Proof.
  apply (proj2 (check_collision_correct (T:=Q) settings_py));
    simpl; lia.
Defined.


Lemma handle_events_dispatches_at_most_one_witness :
  Forall (fun e => actionable e = false) [KEYUP K_UP; KEYDOWN 97]
  ∧ in_KEYS_values K_UP = true
  ∧ handle_events_loop record_key
      [KEYUP K_UP; KEYDOWN 97; KEYDOWN K_UP; KEYDOWN K_LEFT; QUIT] []
    = Ok [K_UP].
Proof.
  assert (Forall (fun e => actionable e = false) [KEYUP K_UP; KEYDOWN 97])
    as Hb by (repeat constructor).
  assert (in_KEYS_values K_UP = true) as Hk by reflexivity.
  split; [exact Hb|]. split; [exact Hk|].
  pose proof (handle_events_dispatches_at_most_one (T:=Q)
                [KEYUP K_UP; KEYDOWN 97; KEYDOWN K_UP; KEYDOWN K_LEFT; QUIT]
                (mkSnakeGame 60 false [the_snake; the_apple] 0 ∅
                   (Snake_init settings_py 90 180 (0, 165, 80) (480, 360)
                      20 1 0)
                   (Apple_init settings_py 300 50 (480, 360) (110, 203, 60))))
    as (_ & Hfirst & _).
  exact (proj2 (Hfirst [KEYUP K_UP; KEYDOWN 97] K_UP [KEYDOWN K_LEFT; QUIT]
                  eq_refl Hb Hk)).
Defined.

(** * Further properties of the code *)

(** ** The new snake *)

Lemma lookup_head_bodies_tail {A : Type} (a b c : A) (n j : nat) :
  (a :: replicate n b ++ [c]) !! j
  = if bool_decide (j < n + 2)%nat then
      Some (if bool_decide (j = 0%nat) then a
            else if bool_decide (j = (n + 1)%nat) then c else b)
    else None.
Proof.
  destruct j as [|j]; simpl.
  - by rewrite bool_decide_eq_true_2 by lia.
  - destruct (decide (j < n)%nat) as [Hj | Hj].
    + rewrite lookup_app_l by (by rewrite length_replicate).
      rewrite lookup_replicate_2 by done.
      rewrite bool_decide_eq_true_2 by lia.
      by rewrite (bool_decide_eq_false_2 (S j = (n + 1)%nat)) by lia.
    + rewrite lookup_app_r by (rewrite length_replicate; lia).
      rewrite length_replicate.
      destruct (decide (j = n)) as [-> | Hne].
      * rewrite Nat.sub_diag. simpl.
        rewrite bool_decide_eq_true_2 by lia.
        by rewrite (bool_decide_eq_true_2 (S n = (n + 1)%nat)) by lia.
      * rewrite bool_decide_eq_false_2 by lia.
        destruct (j - n)%nat as [|k] eqn:Hk; [lia|]. done.
Qed.

(** Two grid cells on one line, a whole number of cells apart, do not
    collide. *)
Lemma colliderect_apart (x0 y0 g dx dy : Z) (i j : nat) :
  i ≠ j →
  (dx = 0 ∧ (dy = g ∨ dy = - g)) ∨ (dy = 0 ∧ (dx = g ∨ dx = - g)) →
  colliderect
    (mkRect (x0 - dx * Z.of_nat i) (y0 - dy * Z.of_nat i) g g)
    (mkRect (x0 - dx * Z.of_nat j) (y0 - dy * Z.of_nat j) g g)
  = false.
Proof.
  intros Hij Hd. unfold colliderect. simpl.
  destruct (Z.eqb_spec g 0) as [|Hg]; [done|]. simpl.
  apply not_true_is_false. rewrite !andb_true_iff, !Z.ltb_lt.
  intros [[[H1 H2] H3] H4].
  assert (Z.of_nat i - Z.of_nat j ≤ -1 ∨ 1 ≤ Z.of_nat i - Z.of_nat j)
    as Hk by lia.
  destruct Hd as [[-> [-> | ->]] | [-> [-> | ->]]]; destruct Hk; nia.
Qed.

Section NewSnake.

Context {T : Type} `{Clock T} (stg : Settings).

Lemma Snake_init_length (x0 y0 : Z) (col : ColorValue) (off : Z * Z)
    (spd dir len : Z) :
  length (parts (Snake_init (T:=T) stg x0 y0 col off spd dir len))
  = (Z.to_nat len + 2)%nat.
Proof.
  unfold Snake_init. simpl.
  rewrite length_shift_body, iter_insert1. simpl.
  rewrite length_app, length_replicate. simpl. lia.
Qed.

Lemma Snake_init_cls (x0 y0 : Z) (col : ColorValue) (off : Z * Z)
    (spd dir len : Z) :
  cls <$> parts (Snake_init (T:=T) stg x0 y0 col off spd dir len)
  = SnakeHead :: replicate (Z.to_nat len) SnakeBody ++ [SnakeTail].
Proof.
  apply list_eq. intros j.
  rewrite list_lookup_fmap, Snake_init_parts, lookup_head_bodies_tail.
  destruct (bool_decide (j < Z.to_nat len + 2)%nat); [|done]. simpl.
  destruct (bool_decide (j = 0%nat)); [done|].
  by destruct (bool_decide (j = (Z.to_nat len + 1)%nat)).
Qed.

(** X1: a snake built with [length = len] has [len + 2] parts (2 when
    [len] is negative): the head, [len] body segments and the tail, in
    this order; part [j] lies [j] steps behind the head's cell, and all
    parts share the given speed and direction and have the size of one
    grid cell. *)
Theorem Snake_init_layout (x0 y0 : Z) (col : ColorValue) (off : Z * Z)
    (spd dir len : Z) :
  length (parts (Snake_init (T:=T) stg x0 y0 col off spd dir len))
  = (Z.to_nat len + 2)%nat
  ∧ cls <$> parts (Snake_init (T:=T) stg x0 y0 col off spd dir len)
    = SnakeHead :: replicate (Z.to_nat len) SnakeBody ++ [SnakeTail]
  ∧ ∀ j p,
      parts (Snake_init (T:=T) stg x0 y0 col off spd dir len) !! j = Some p →
      bounds p
      = mkRect
          (x0 - (get_velocity dir spd (GRID_SIZE stg)).1 * Z.of_nat j)
          (y0 - (get_velocity dir spd (GRID_SIZE stg)).2 * Z.of_nat j)
          (GRID_SIZE stg) (GRID_SIZE stg)
      ∧ direction p = dir ∧ speed p = spd ∧ color p = col
      ∧ offset p = off.
Proof.
  split; [apply Snake_init_length|]. split; [apply Snake_init_cls|].
  intros j p. rewrite Snake_init_parts.
  destruct (bool_decide (j < Z.to_nat len + 2)%nat); [|done].
  by intros [= <-].
Qed.

(** X2: no two parts of a new snake collide, whatever its length, its
    direction and the grid size. *)
Theorem Snake_init_no_overlap (x0 y0 : Z) (col : ColorValue) (off : Z * Z)
    (spd dir len : Z) (i j : nat) (p q : GameObject) :
  i ≠ j →
  parts (Snake_init (T:=T) stg x0 y0 col off spd dir len) !! i = Some p →
  parts (Snake_init (T:=T) stg x0 y0 col off spd dir len) !! j = Some q →
  colliderect (bounds p) (bounds q) = false.
Proof.
  intros Hij. rewrite !Snake_init_parts.
  destruct (bool_decide (i < Z.to_nat len + 2)%nat); [|done].
  destruct (bool_decide (j < Z.to_nat len + 2)%nat); [|done].
  intros [= <-] [= <-]. unfold GameObject_init. cbn [bounds].
  apply colliderect_apart; [done|].
  apply (get_velocity_axis dir spd (GRID_SIZE stg)).
Qed.

End NewSnake.

(** ** Moving in a straight line *)

Lemma adopts_eq (p q q' : GameObject) :
  adopts p q q' →
  q' = mkGameObject (cls q)
         (mkRect (x (bounds p)) (y (bounds p)) (w (bounds q)) (h (bounds q)))
         (color q) (offset q) (speed q) (direction p) (step_size q).
Proof.
  destruct q' as [c [bx by_ bw bh] col off spd d st].
  unfold adopts. simpl.
  intros (-> & -> & -> & -> & -> & -> & -> & -> & -> & ->). done.
Qed.

Section StraightLine.

Context {T : Type} `{Clock T} (stg : Settings).

(** The parts behind the head after [Snake.move]. *)
Lemma moved_parts_lookup (hd : GameObject) (rest : list GameObject)
    (i : nat) (p q : GameObject) :
  (hd :: rest) !! i = Some p → (hd :: rest) !! S i = Some q →
  ∃ q', follow (x (bounds hd)) (y (bounds hd)) (direction hd) rest !! i
        = Some q'
        ∧ adopts p q q'.
Proof.
  intros Hi HSi. destruct i as [|i]; simpl in Hi, HSi.
  - injection Hi as ->. destruct rest as [|q0 rest]; [done|].
    injection HSi as ->. simpl. eexists; split; [reflexivity|].
    by repeat split.
  - by eapply follow_adopts.
Qed.

(** X3: moving a new snake (of nonzero speed) once gives the snake that
    would have been built one step further along its direction; so after
    [n] moves every part has advanced by [n] steps, and the snake is the
    one built [n] steps ahead. *)
Theorem moves_in_a_straight_line (x0 y0 : Z) (col : ColorValue)
    (off : Z * Z) (spd dir len : Z) (n : nat) :
  spd ≠ 0 →
  moves stg n (Snake_init (T:=T) stg x0 y0 col off spd dir len)
  = Ok (Snake_init stg
          (x0 + (get_velocity dir spd (GRID_SIZE stg)).1 * Z.of_nat n)
          (y0 + (get_velocity dir spd (GRID_SIZE stg)).2 * Z.of_nat n)
          col off spd dir len).
Proof.
  intros Hspd.
  assert (∀ xa ya,
            Snake_move stg (Snake_init (T:=T) stg xa ya col off spd dir len)
            = Ok (Snake_init stg
                    (xa + (get_velocity dir spd (GRID_SIZE stg)).1)
                    (ya + (get_velocity dir spd (GRID_SIZE stg)).2)
                    col off spd dir len)) as Hone.
  { intros xa ya.
    set (vx := (get_velocity dir spd (GRID_SIZE stg)).1).
    set (vy := (get_velocity dir spd (GRID_SIZE stg)).2).
    pose proof (Snake_init_parts (T:=T) stg xa ya col off spd dir len)
      as Hold.
    pose proof (Snake_init_parts (T:=T) stg (xa + vx) (ya + vy) col off spd
                  dir len) as Hnew.
    fold vx vy in Hold, Hnew.
    destruct (parts (Snake_init (T:=T) stg xa ya col off spd dir len))
      as [|hd rest] eqn:Hp.
    { specialize (Hold 0%nat).
      by rewrite bool_decide_eq_true_2 in Hold by lia. }
    rewrite (Snake_move_eq stg _ hd rest Hp). f_equal.
    assert (GameObject_update stg hd
            :: follow (x (bounds hd)) (y (bounds hd)) (direction hd) rest
            = parts (Snake_init (T:=T) stg (xa + vx) (ya + vy) col off spd
                       dir len)) as ->; [|reflexivity].
    apply list_eq. intros j.
    rewrite Hnew. destruct j as [|j].
    - pose proof (Hold 0%nat) as H0.
      rewrite !bool_decide_eq_true_2 in H0 by lia.
      rewrite !bool_decide_eq_true_2 by lia.
      injection H0 as ->. cbn [lookup list_lookup]. f_equal.
      rewrite update_moving by done.
      unfold GameObject_init, GameObject_move, with_bounds, move.
      cbn [cls bounds color offset speed direction step_size pygame.x
           pygame.y pygame.w pygame.h].
      fold vx vy. do 2 f_equal; lia.
    - rewrite lookup_cons_ne_0 by lia. cbn [Nat.pred].
      destruct (decide (S j < Z.to_nat len + 2)%nat) as [Hj | Hj].
      + rewrite bool_decide_eq_true_2 by done.
        pose proof (Hold j) as Hp0. pose proof (Hold (S j)) as Hq0.
        rewrite bool_decide_eq_true_2 in Hp0, Hq0 by lia.
        destruct (moved_parts_lookup hd rest j _ _ Hp0 Hq0)
          as (q' & -> & Hq'%adopts_eq).
        f_equal. rewrite Hq'. unfold GameObject_init.
        cbn [cls bounds color offset speed direction step_size pygame.x
             pygame.y pygame.w pygame.h].
        rewrite (bool_decide_eq_false_2 (S j = 0%nat)) by lia.
        do 2 f_equal; lia.
      + rewrite bool_decide_eq_false_2 by done.
        apply lookup_ge_None_2. rewrite length_follow.
        assert (length (hd :: rest) = (Z.to_nat len + 2)%nat) as Hlen.
        { rewrite <- Hp. unfold Snake_init. simpl.
          rewrite length_shift_body, iter_insert1. simpl.
          rewrite length_app, length_replicate. simpl. lia. }
        simpl in Hlen. lia. }
  revert x0 y0. induction n as [|n IH]; intros x0 y0.
  - simpl. do 2 f_equal; lia.
  - cbn [moves]. rewrite Hone. cbn [mbind result_bind]. rewrite IH.
    do 2 f_equal; lia.
Qed.

End StraightLine.

(** ** What a frame leaves alone *)

Section FrameFacts.

Context {T : Type} `{Clock T} (stg : Settings).

Lemma call_all_facts (hs : list handler) (key : Z) (g g' : SnakeGame T) :
  call_all call hs key g = Ok g' →
  same_session g g' ∧ apple g' = apple g
  ∧ keydown_handlers g' = keydown_handlers g.
Proof.
  revert g. induction hs as [|hdl hs IH]; intros g; simpl.
  - by intros [= ->].
  - destruct hdl. simpl.
    destruct (Snake_handle key (snake g)) as [s|]; [|done]. simpl.
    intros (Hs & Ha & Hk)%IH. destruct Hs as (? & ? & ? & ?). done.
Qed.

Lemma update_objects_facts (dt : T) (os : list object_ref)
    (g g' : SnakeGame T) :
  update_objects stg dt os g = Ok g' →
  same_session g g' ∧ keydown_handlers g' = keydown_handlers g.
Proof.
  revert g. induction os as [|o os IH]; intros g; simpl.
  - by intros [= ->].
  - destruct o; simpl.
    + destruct (Snake_update stg dt (snake g)) as [s|]; [|done]. simpl.
      intros (Hs & Hk)%IH. destruct Hs as (? & ? & ? & ?). done.
    + intros (Hs & Hk)%IH. destruct Hs as (? & ? & ? & ?). done.
Qed.


End FrameFacts.

(** ** Eating and dying *)

Section Collisions.

Context {T : Type} `{Clock T} (stg : Settings).

Lemma respawn_keeps_shape (a a' : Apple) (r r' : rng) :
  Apple_respawn a r = Ok (a', r') →
  speed (apple_obj a') = speed (apple_obj a)
  ∧ cls (apple_obj a') = cls (apple_obj a)
  ∧ lifespan a' = lifespan a.
Proof.
  unfold Apple_respawn.
  destruct (randrange 0 _ 1 r) as [[vx r1]|]; [|done]. simpl.
  destruct (randrange 0 _ 1 r1) as [[vy r2]|]; [|done]. simpl.
  by intros [= <- _].
Qed.

Lemma respawn_loop_idle (fuel : nat) (s : Snake T) (a : Apple) (r : rng) :
  Snake_colliderect s (bounds (apple_obj a)) = false →
  respawn_loop (S fuel) s a r = Some (Ok (a, r)).
Proof. intros Hc. simpl. by rewrite Hc. Qed.

(** What [get_apple] changes. *)
Lemma get_apple_facts (fuel : nat) (g g' : SnakeGame T) (r r' : rng) :
  get_apple fuel g r = Some (Ok (g', r')) →
  score g' = score g + 1
  ∧ got_apple (snake g') = true
  ∧ parts (snake g') = parts (snake g)
  ∧ time (snake g') = time (snake g)
  ∧ game_over g' = game_over g ∧ objects g' = objects g
  ∧ keydown_handlers g' = keydown_handlers g
  ∧ frame_rate g' = frame_rate g
  ∧ (∀ part, part ∈ parts (snake g') →
       colliderect (bounds part) (bounds (apple_obj (apple g'))) = false)
  ∧ (Snake_colliderect (snake g) (bounds (apple_obj (apple g))) = false →
     apple g' = apple g ∧ r' = r).
Proof.
  unfold get_apple.
  destruct (respawn_loop fuel (snake g) (apple g) r)
    as [[[a r1]|]|] eqn:Hloop; try done.
  intros [= <- <-]. simpl. do 8 (split; [done|]). split.
  - intros part Hin.
    by apply (respawn_loop_clear fuel (snake g) (apple g) a r r1 Hloop).
  - intros Hclear. destruct fuel as [|fuel]; [done|].
    rewrite (respawn_loop_idle fuel _ _ r Hclear) in Hloop.
    by injection Hloop as <- <-.
Qed.

(** X9: when [get_apple] returns, the score is one higher, the snake's
    [got_apple] flag is set, the snake itself is as before, and the apple
    touches no part of the snake; an apple that touched no part on entry
    is left where it was and no random number is drawn. *)
Theorem get_apple_post (fuel : nat) (g g' : SnakeGame T) (r r' : rng) :
  get_apple fuel g r = Some (Ok (g', r')) →
  score g' = score g + 1
  ∧ got_apple (snake g') = true
  ∧ parts (snake g') = parts (snake g)
  ∧ time (snake g') = time (snake g)
  ∧ game_over g' = game_over g ∧ objects g' = objects g
  ∧ keydown_handlers g' = keydown_handlers g
  ∧ frame_rate g' = frame_rate g
  ∧ (∀ part, part ∈ parts (snake g') →
       colliderect (bounds part) (bounds (apple_obj (apple g'))) = false)
  ∧ (Snake_colliderect (snake g) (bounds (apple_obj (apple g))) = false →
     apple g' = apple g ∧ r' = r).
Proof.
  intros Hget. unfold get_apple in Hget.
  destruct (respawn_loop fuel (snake g) (apple g) r)
    as [[[a r1]|]|] eqn:Hloop; try done.
  injection Hget as <- <-. simpl. do 8 (split; [done|]). split.
  - intros part Hin.
    by apply (respawn_loop_clear fuel (snake g) (apple g) a r r1 Hloop).
  - intros Hclear. destruct fuel as [|fuel]; [done|].
    rewrite (respawn_loop_idle fuel _ _ r Hclear) in Hloop.
    by injection Hloop as <- <-.
Qed.

Lemma apple_hits_head_ext (os : list object_ref) (g1 g2 : SnakeGame T) :
  snake g1 = snake g2 → apple g1 = apple g2 →
  apple_hits_head os g1 = apple_hits_head os g2.
Proof.
  intros Hs Ha. induction os as [|o os IH]; simpl; [done|].
  destruct o; [done|]. by rewrite Hs, Ha, IH.
Qed.

(** What [handle_collisions] does to the session. *)
Lemma handle_collisions_facts (fuel : nat) (g g1 : SnakeGame T)
    (r r1 : rng) :
  handle_collisions fuel g r = Some (Ok (g1, r1)) →
  ∃ wall eaten,
    Snake_check_collision (snake g) = Ok wall
    ∧ check_apple_snake_collision g = Ok eaten
    ∧ game_over g1 = game_over g || wall
    ∧ score g1 = (if eaten then score g + 1 else score g)
    ∧ parts (snake g1) = parts (snake g)
    ∧ time (snake g1) = time (snake g)
    ∧ got_apple (snake g1) = got_apple (snake g) || eaten
    ∧ objects g1 = objects g ∧ frame_rate g1 = frame_rate g
    ∧ keydown_handlers g1 = keydown_handlers g
    ∧ (eaten = false → apple g1 = apple g ∧ r1 = r).
Proof.
  unfold handle_collisions.
  destruct (Snake_check_collision (snake g)) as [wall|]; [|done].
  set (g0 := if wall then Game_finish g else g).
  assert (snake g0 = snake g ∧ apple g0 = apple g ∧ score g0 = score g
          ∧ objects g0 = objects g ∧ frame_rate g0 = frame_rate g
          ∧ keydown_handlers g0 = keydown_handlers g
          ∧ game_over g0 = game_over g || wall)
    as (Hs & Ha & Hsc & Ho & Hf & Hk & Hg).
  { subst g0. destruct wall; simpl; repeat split; try done.
    - by rewrite orb_true_r.
    - by rewrite orb_false_r. }
  unfold check_apple_snake_collision. rewrite Ho.
  rewrite (apple_hits_head_ext (objects g) g0 g Hs Ha).
  destruct (apple_hits_head (objects g) g) as [[|]|]; [| |done].
  - intros Hget. exists wall, true.
    apply get_apple_facts in Hget
      as (Hsc' & Hga & Hp & Ht & Hgo & Hob & Hkh & Hfr & _).
    rewrite Hs in Hp, Ht. rewrite orb_true_r.
    repeat split; try done; congruence.
  - intros [= <- <-]. exists wall, false. rewrite orb_false_r.
    repeat split; try done; congruence.
Qed.


End Collisions.

(** ** Invariants of the snake *)

Section Preservation.

Context {T : Type} `{Clock T} (stg : Settings).
Context (P : list GameObject → Prop).

Hypothesis P_handle : ∀ key hd hd' rest,
  P (hd :: rest) → SnakeHead_handle key hd = Ok hd' → P (hd' :: rest).

Hypothesis P_move : ∀ hd rest,
  P (hd :: rest) →
  P (GameObject_update stg hd
     :: follow (x (bounds hd)) (y (bounds hd)) (direction hd) rest).

Hypothesis P_grow : ∀ hd rest col off,
  P (hd :: rest) →
  P (GameObject_update stg hd
     :: GameObject_init stg SnakeBody (x (bounds hd)) (y (bounds hd)) col off
          (speed hd) (direction hd)
     :: rest).

Lemma Snake_handle_keeps (key : Z) (s s' : Snake T) :
  P (parts s) → Snake_handle key s = Ok s' → P (parts s').
Proof.
  unfold Snake_handle, head. destruct (parts s) as [|hd rest]; [done|].
  simpl. intros HP.
  destruct (SnakeHead_handle key hd) as [hd'|] eqn:Hh; [|done]. simpl.
  intros [= <-]. simpl. by eapply P_handle.
Qed.

Lemma Snake_update_keeps (dt : T) (s s' : Snake T) :
  P (parts s) → Snake_update stg dt s = Ok s' → P (parts s').
Proof.
  intros HP. unfold Snake_update, head.
  destruct (parts s) as [|hd rest] eqn:Hp; [done|]. simpl.
  destruct (one_over (speed hd)) as [limit|]; [|done]. simpl.
  destruct (t_gt (time s) limit).
  - destruct (got_apple s).
    + rewrite (Snake_grow_eq stg s hd rest Hp). simpl.
      intros [= <-]. simpl. by apply P_grow.
    + rewrite (Snake_move_eq stg s hd rest Hp). simpl.
      intros [= <-]. simpl. by apply P_move.
  - intros [= <-]. simpl. by rewrite Hp.
Qed.

Lemma call_all_keeps (hs : list handler) (key : Z) (g g' : SnakeGame T) :
  P (parts (snake g)) → call_all call hs key g = Ok g' →
  P (parts (snake g')).
Proof.
  revert g. induction hs as [|hdl hs IH]; intros g HP; simpl.
  - by intros [= <-].
  - destruct hdl. simpl.
    destruct (Snake_handle key (snake g)) as [s|] eqn:Hs; [|done]. simpl.
    apply IH. simpl. by eapply Snake_handle_keeps.
Qed.

Lemma handle_events_keeps (queue : list event) (g g' : SnakeGame T) :
  P (parts (snake g)) →
  handle_events_loop dispatch_keydown queue g = Ok g' →
  P (parts (snake g')).
Proof.
  intros HP. rewrite handle_events_loop_find.
  destruct (find actionable queue) as [[|key|key|ty]|]; try done.
  - unfold dispatch_keydown.
    destruct (defaultdict_get (keydown_handlers g) key) as [hs m].
    by apply call_all_keeps.
  - by intros [= <-].
Qed.

Lemma update_objects_keeps (dt : T) (os : list object_ref)
    (g g' : SnakeGame T) :
  P (parts (snake g)) → update_objects stg dt os g = Ok g' →
  P (parts (snake g')).
Proof.
  revert g. induction os as [|o os IH]; intros g HP; simpl.
  - by intros [= <-].
  - destruct o; simpl.
    + destruct (Snake_update stg dt (snake g)) as [s|] eqn:Hs; [|done].
      simpl. apply IH. simpl. by eapply Snake_update_keeps.
    + by apply IH.
Qed.

Lemma frame_keeps (fuel : nat) (queue : list event) (dt : T)
    (g g' : SnakeGame T) (r r' : rng) :
  P (parts (snake g)) →
  frame stg fuel queue dt g r = Some (Ok (g', r')) →
  P (parts (snake g')).
Proof.
  intros HP. unfold frame.
  destruct (handle_collisions fuel g r) as [[[g1 r1]|]|] eqn:Hc; try done.
  apply handle_collisions_facts in Hc
    as (wall & eaten & _ & _ & _ & _ & Hp1 & _).
  unfold Game_handle_events, Game_update.
  destruct (handle_events_loop dispatch_keydown queue g1) as [g2|] eqn:He;
    [|done].
  simpl.
  destruct (update_objects stg dt (objects g2) g2) as [g3|] eqn:Hu; [|done].
  simpl. intros [= <- _].
  eapply update_objects_keeps; [|exact Hu].
  eapply handle_events_keeps; [|exact He]. by rewrite Hp1.
Qed.

Lemma run_loop_keeps (fuel : nat) (inputs : list (list event * T)) (dt : T)
    (g g' : SnakeGame T) (r r' : rng) :
  P (parts (snake g)) →
  run_loop stg fuel dt inputs g r = Some (Ok (g', r')) →
  P (parts (snake g')).
Proof.
  revert dt g r. induction inputs as [|[queue tick] inputs IH];
    intros dt g r HP; simpl.
  - by intros [= <- _].
  - destruct (game_over g); [by intros [= <- _]|].
    destruct (frame stg fuel queue dt g r) as [[[g1 r1]|]|] eqn:Hf;
      try done.
    apply IH. by eapply frame_keeps.
Qed.

End Preservation.

Lemma Rect_eq (r1 r2 : Rect) :
  x r1 = x r2 → y r1 = y r2 → w r1 = w r2 → h r1 = h r2 → r1 = r2.
Proof. destruct r1, r2. simpl. by intros -> -> -> ->. Qed.

Section Linked.

Context {T : Type} `{Clock T} (stg : Settings).

Lemma chain_linked (hd : GameObject) (rest : list GameObject) :
  chain stg hd rest ↔ linked stg (hd :: rest).
Proof.
  revert hd. induction rest as [|q rest IH]; intros hd; simpl.
  - split; [|done]. intros _ i p q' Hi HSi. by destruct i.
  - rewrite IH. split.
    + intros [Hl Hrest] i p q' Hi HSi. destruct i as [|i].
      * simpl in Hi, HSi. by injection Hi as <-; injection HSi as <-.
      * by apply (Hrest i).
    + intros Hl. split.
      * by apply (Hl 0%nat).
      * intros i p q' Hi HSi. by apply (Hl (S i)).
Qed.

(** The loop of [move] keeps the parts linked behind a predecessor that
    has advanced by one step. *)
Lemma chain_follow (rest : list GameObject) (p0 p0' : GameObject)
    (d spd0 : Z) :
  chain stg p0 rest →
  bounds p0'
  = move (bounds p0) (get_velocity d spd0 (GRID_SIZE stg)).1
      (get_velocity d spd0 (GRID_SIZE stg)).2 →
  chain stg p0' (follow (x (bounds p0)) (y (bounds p0)) d rest).
Proof.
  revert p0 p0' d spd0.
  induction rest as [|q rest IH]; intros p0 p0' d spd0; simpl; [done|].
  intros [Hl Hrest] Hb. split.
  - rewrite Hb. unfold ahead. rewrite Hl. unfold ahead.
    apply Rect_eq; reflexivity.
  - apply (IH q _ (direction q) (speed q)); [done|].
    simpl. rewrite Hl. unfold ahead. apply Rect_eq; reflexivity.
Qed.

Lemma well_formed_handle (key : Z) (hd hd' : GameObject)
    (rest : list GameObject) :
  well_formed stg (hd :: rest) → SnakeHead_handle key hd = Ok hd' →
  well_formed stg (hd' :: rest).
Proof.
  intros (hd0 & rest0 & [= <- <-] & Hs & Hw & Hh & Hc) Hk.
  destruct (handle_total hd key) as (o & Ho & Hcase).
  rewrite Ho in Hk. injection Hk as <-.
  exists o, rest. split; [done|].
  destruct Hcase as [-> | (n & _ & ->)]; [done|].
  repeat split; try done. by destruct rest.
Qed.

Lemma well_formed_move (hd : GameObject) (rest : list GameObject) :
  well_formed stg (hd :: rest) →
  well_formed stg
    (GameObject_update stg hd
     :: follow (x (bounds hd)) (y (bounds hd)) (direction hd) rest).
Proof.
  intros (hd0 & rest0 & [= <- <-] & Hs & Hw & Hh & Hc).
  eexists _, _. split; [reflexivity|].
  rewrite update_moving by done. repeat split; try done.
  by apply (chain_follow rest hd _ (direction hd) (speed hd)).
Qed.

Lemma well_formed_grow (hd : GameObject) (rest : list GameObject)
    (col : ColorValue) (off : Z * Z) :
  well_formed stg (hd :: rest) →
  well_formed stg
    (GameObject_update stg hd
     :: GameObject_init stg SnakeBody (x (bounds hd)) (y (bounds hd)) col off
          (speed hd) (direction hd)
     :: rest).
Proof.
  intros (hd0 & rest0 & [= <- <-] & Hs & Hw & Hh & Hc).
  eexists _, _. split; [reflexivity|].
  rewrite update_moving by done. repeat split; try done.
  - unfold ahead, GameObject_init. simpl. apply Rect_eq; simpl; done.
  - destruct rest as [|q rest]; [done|]. destruct Hc as [Hl Hrest].
    split; [|done]. rewrite <- Hl. unfold GameObject_init. simpl.
    apply Rect_eq; simpl; done.
Qed.

Lemma well_formed_init (x0 y0 : Z) (col : ColorValue) (off : Z * Z)
    (spd dir len : Z) :
  spd ≠ 0 →
  well_formed stg
    (parts (Snake_init (T:=T) stg x0 y0 col off spd dir len)).
Proof.
  intros Hspd.
  pose proof (Snake_init_parts (T:=T) stg x0 y0 col off spd dir len)
    as Hparts.
  destruct (parts (Snake_init (T:=T) stg x0 y0 col off spd dir len))
    as [|hd rest] eqn:Hp.
  { specialize (Hparts 0%nat).
    by rewrite bool_decide_eq_true_2 in Hparts by lia. }
  pose proof (Hparts 0%nat) as H0.
  rewrite !bool_decide_eq_true_2 in H0 by lia. injection H0 as Hhd.
  exists hd, rest. split; [done|].
  split; [by rewrite Hhd|]. split; [by rewrite Hhd|].
  split; [by rewrite Hhd|].
  apply chain_linked. intros i p q Hi HSi.
  rewrite Hparts in Hi, HSi.
  destruct (bool_decide (i < Z.to_nat len + 2)%nat); [|done].
  destruct (bool_decide (S i < Z.to_nat len + 2)%nat); [|done].
  injection Hi as <-. injection HSi as <-.
  unfold ahead, GameObject_init, move.
  cbn [bounds direction speed pygame.x pygame.y pygame.w pygame.h].
  change (dir `mod` 2 * neg1_pow (dir `mod` 3 =? 0) * GRID_SIZE stg)
    with (get_velocity dir spd (GRID_SIZE stg)).1.
  change ((dir + 1) `mod` 2 * neg1_pow (dir `mod` 3 =? 0) * GRID_SIZE stg)
    with (get_velocity dir spd (GRID_SIZE stg)).2.
  generalize (get_velocity dir spd (GRID_SIZE stg)).1.
  generalize (get_velocity dir spd (GRID_SIZE stg)).2. intros vy vx.
  apply Rect_eq; cbn [pygame.x pygame.y pygame.w pygame.h]; lia.
Qed.

End Linked.

Section LayoutAndHeadings.

Context {T : Type} `{Clock T} (stg : Settings).

Lemma update_cls (o : GameObject) : cls (GameObject_update stg o) = cls o.
Proof.
  unfold GameObject_update. destruct (negb _); [|done].
  by destruct (get_velocity (direction o) (speed o) (GRID_SIZE stg)).
Qed.

Lemma cls_follow (tx ty td : Z) (ps : list GameObject) :
  cls <$> follow tx ty td ps = cls <$> ps.
Proof.
  revert tx ty td. induction ps as [|p ps IH]; intros; simpl; [done|].
  by rewrite IH.
Qed.

Lemma handle_cls (key : Z) (o o' : GameObject) :
  SnakeHead_handle key o = Ok o' → cls o' = cls o.
Proof.
  destruct (handle_total o key) as (o1 & -> & [-> | (n & _ & ->)]);
    by intros [= <-].
Qed.

(** The class layout with at least [n0] parts. *)
Lemma layout_handle (n0 : nat) (key : Z) (hd hd' : GameObject)
    (rest : list GameObject) :
  layout (hd :: rest) ∧ (n0 ≤ length (hd :: rest))%nat →
  SnakeHead_handle key hd = Ok hd' →
  layout (hd' :: rest) ∧ (n0 ≤ length (hd' :: rest))%nat.
Proof.
  intros [[n Hn] Hlen] Hk%handle_cls. split; [|done].
  exists n. simpl in *. by rewrite Hk.
Qed.

Lemma layout_move (n0 : nat) (hd : GameObject) (rest : list GameObject) :
  layout (hd :: rest) ∧ (n0 ≤ length (hd :: rest))%nat →
  layout (GameObject_update stg hd
          :: follow (x (bounds hd)) (y (bounds hd)) (direction hd) rest)
  ∧ (n0 ≤ length (GameObject_update stg hd
                  :: follow (x (bounds hd)) (y (bounds hd)) (direction hd)
                       rest))%nat.
Proof.
  intros [[n Hn] Hlen]. split.
  - exists n. simpl in *. by rewrite update_cls, cls_follow.
  - simpl in *. by rewrite length_follow.
Qed.

Lemma layout_grow (n0 : nat) (hd : GameObject) (rest : list GameObject)
    (col : ColorValue) (off : Z * Z) :
  layout (hd :: rest) ∧ (n0 ≤ length (hd :: rest))%nat →
  layout (GameObject_update stg hd
          :: GameObject_init stg SnakeBody (x (bounds hd)) (y (bounds hd))
               col off (speed hd) (direction hd)
          :: rest)
  ∧ (n0 ≤ length (GameObject_update stg hd
                  :: GameObject_init stg SnakeBody (x (bounds hd))
                       (y (bounds hd)) col off (speed hd) (direction hd)
                  :: rest))%nat.
Proof.
  intros [[n Hn] Hlen]. split.
  - exists (S n). simpl in *. rewrite update_cls.
    injection Hn as -> ->. done.
  - simpl in *. lia.
Qed.

Lemma follow_headings (tx ty td : Z) (ps : list GameObject) :
  0 ≤ td ≤ 3 → headings_valid ps → headings_valid (follow tx ty td ps).
Proof.
  intros Htd Hps. revert tx ty td Htd.
  induction Hps as [|p ps Hp Hps IH]; intros tx ty td Htd; simpl.
  - constructor.
  - constructor; [exact Htd|]. by apply IH.
Qed.

Lemma headings_handle (key : Z) (hd hd' : GameObject)
    (rest : list GameObject) :
  headings_valid (hd :: rest) → SnakeHead_handle key hd = Ok hd' →
  headings_valid (hd' :: rest).
Proof.
  intros [Hhd Hrest]%Forall_cons Hk. constructor; [|done].
  by destruct (handle_never_reverses key hd hd' Hhd Hk).
Qed.

Lemma headings_move (hd : GameObject) (rest : list GameObject) :
  headings_valid (hd :: rest) →
  headings_valid
    (GameObject_update stg hd
     :: follow (x (bounds hd)) (y (bounds hd)) (direction hd) rest).
Proof.
  intros [Hhd Hrest]%Forall_cons. constructor.
  - by rewrite update_direction.
  - by apply follow_headings.
Qed.

Lemma headings_grow (hd : GameObject) (rest : list GameObject)
    (col : ColorValue) (off : Z * Z) :
  headings_valid (hd :: rest) →
  headings_valid
    (GameObject_update stg hd
     :: GameObject_init stg SnakeBody (x (bounds hd)) (y (bounds hd)) col off
          (speed hd) (direction hd)
     :: rest).
Proof.
  intros [Hhd Hrest]%Forall_cons. constructor; [|constructor]; try done.
  by rewrite update_direction.
Qed.

Lemma headings_init (x0 y0 : Z) (col : ColorValue) (off : Z * Z)
    (spd dir len : Z) :
  0 ≤ dir ≤ 3 →
  headings_valid (parts (Snake_init (T:=T) stg x0 y0 col off spd dir len)).
Proof.
  intros Hd. apply Forall_lookup. intros j p.
  rewrite Snake_init_parts. destruct (bool_decide _); [|done].
  by intros [= <-].
Qed.

(** X4: in every state a game reaches from [SnakeGame.__init__] with a
    nonzero snake speed, the snake is linked: the head fills one grid cell
    and every other part is exactly one step behind its predecessor, along
    its own direction. No gap opens and no part drifts, whatever keys are
    pressed and whenever the snake grows. *)
Theorem run_keeps_snake_linked (fps : Z) (fuel : nat)
    (inputs : list (list event * T)) (g g' : SnakeGame T) (r r1 r' : rng) :
  SNAKE_SPEED stg ≠ 0 →
  SnakeGame_init stg fps r = Ok (g, r1) →
  Game_run stg fuel inputs g r1 = Some (Ok (g', r')) →
  well_formed stg (parts (snake g')) ∧ linked stg (parts (snake g')).
Proof.
  intros Hspd Hinit Hrun.
  assert (well_formed stg (parts (snake g'))) as Hwf.
  { eapply (run_loop_keeps stg (well_formed stg)); [| | | |exact Hrun].
    - apply well_formed_handle.
    - apply well_formed_move.
    - apply well_formed_grow.
    - apply SnakeGame_init_inv in Hinit
        as (x0 & y0 & ax & ay & -> & _).
      by apply well_formed_init. }
  split; [done|].
  destruct Hwf as (hd & rest & -> & _ & _ & _ & Hc). by apply chain_linked.
Qed.

(** X6: in every state a game reaches, the snake is one head, then body
    segments, then one tail; it has at least as many parts as it started
    with, and running on from a reached state never gives a state with
    fewer parts. *)
Theorem run_keeps_layout (fps : Z) (fuel : nat)
    (inputs : list (list event * T)) (g g' : SnakeGame T) (r r1 r' : rng) :
  SnakeGame_init stg fps r = Ok (g, r1) →
  Game_run stg fuel inputs g r1 = Some (Ok (g', r')) →
  layout (parts (snake g'))
  ∧ (Z.to_nat (SNAKE_INIT_LENGTH stg) + 2 ≤ length (parts (snake g')))%nat
  ∧ ∀ fuel2 dt2 inputs2 g2 r2,
      run_loop stg fuel2 dt2 inputs2 g' r' = Some (Ok (g2, r2)) →
      layout (parts (snake g2))
      ∧ (length (parts (snake g')) ≤ length (parts (snake g2)))%nat.
Proof.
  intros Hinit Hrun.
  assert (layout (parts (snake g'))
          ∧ (Z.to_nat (SNAKE_INIT_LENGTH stg) + 2
             ≤ length (parts (snake g')))%nat) as [Hlay Hlen].
  { eapply (run_loop_keeps stg
              (fun ps => layout ps
                         ∧ (Z.to_nat (SNAKE_INIT_LENGTH stg) + 2
                            ≤ length ps)%nat));
      [| | | |exact Hrun].
    - intros key hd hd' rest. apply layout_handle.
    - intros hd rest. apply layout_move.
    - intros hd rest col off. apply layout_grow.
    - apply SnakeGame_init_inv in Hinit as (x0 & y0 & ax & ay & -> & _).
      split.
      + eexists. apply Snake_init_cls.
      + by rewrite Snake_init_length. }
  split; [done|]. split; [done|].
  intros fuel2 dt2 inputs2 g2 r2 Hrun2.
  eapply (run_loop_keeps stg
            (fun ps => layout ps
                       ∧ (length (parts (snake g')) ≤ length ps)%nat));
    [| | | |exact Hrun2].
  - intros key hd hd' rest. apply layout_handle.
  - intros hd rest. apply layout_move.
  - intros hd rest col off. apply layout_grow.
  - done.
Qed.

(** X7: in every state a game reaches, every part of the snake points in
    one of the four directions 0..3. *)
Theorem run_keeps_headings (fps : Z) (fuel : nat)
    (inputs : list (list event * T)) (g g' : SnakeGame T) (r r1 r' : rng) :
  SnakeGame_init stg fps r = Ok (g, r1) →
  Game_run stg fuel inputs g r1 = Some (Ok (g', r')) →
  headings_valid (parts (snake g')).
Proof.
  intros Hinit Hrun.
  eapply (run_loop_keeps stg headings_valid); [| | | |exact Hrun].
  - apply headings_handle.
  - apply headings_move.
  - apply headings_grow.
  - apply SnakeGame_init_inv in Hinit as (x0 & y0 & ax & ay & -> & _).
    apply headings_init. lia.
Qed.

(** X5: the head of a linked snake never collides with the part right
    behind it; so a linked snake of two parts, head and tail, reports a
    collision exactly when its head leaves the playfield. *)
Theorem head_clear_of_neck (s : Snake T) :
  well_formed stg (parts s) →
  (∀ hd q, parts s !! 0%nat = Some hd → parts s !! 1%nat = Some q →
     colliderect (bounds hd) (bounds q) = false)
  ∧ (length (parts s) = 2%nat →
     ∃ hd b, parts s !! 0%nat = Some hd
       ∧ Snake_check_collision s = Ok b
       ∧ (b = true ↔ outside_playfield (snake_offset s) (bounds hd))).
Proof.
  intros (hd & rest & Hp & Hs & Hw & Hh & Hc).
  assert (∀ q, rest !! 0%nat = Some q →
            colliderect (bounds hd) (bounds q) = false) as Hneck.
  { intros q Hq. destruct rest as [|q0 rest]; [done|].
    injection Hq as ->. destruct Hc as [Hl _].
    pose proof (get_velocity_axis (direction q) (speed q) (GRID_SIZE stg))
      as Haxis. cbv zeta in Haxis.
    unfold ahead, move in Hl.
    set (vx := (get_velocity (direction q) (speed q) (GRID_SIZE stg)).1) in *.
    set (vy := (get_velocity (direction q) (speed q) (GRID_SIZE stg)).2) in *.
    clearbody vx vy.
    destruct (bounds hd) as [hx hy hw hh]. destruct (bounds q) as [qx qy qw qh].
    simpl in *. injection Hl as -> -> -> ->. subst qw qh.
    pose proof (colliderect_shifted (qx + vx) (qy + vy) (GRID_SIZE stg)
                  vx vy 1 ltac:(lia) Haxis) as Hsh.
    replace (qx + vx - vx * Z.of_nat 1) with qx in Hsh by lia.
    replace (qy + vy - vy * Z.of_nat 1) with qy in Hsh by lia. done. }
  split.
  - intros hd0 q. rewrite Hp. simpl. intros [= <-]. apply Hneck.
  - intros Hlen. rewrite Hp in Hlen.
    destruct rest as [|q [|? ?]]; try done.
    exists hd. unfold Snake_check_collision, head. rewrite Hp. simpl.
    pose proof (wall_test_outside (snake_offset s) (bounds hd)) as Hwall.
    destruct (_ || _) eqn:Hout.
    + eexists. split; [done|]. split; [done|]. split; [|done].
      intros _. by apply Hwall.
    + eexists. split; [done|]. split; [done|].
      rewrite (Hneck q eq_refl). simpl. split; [done|].
      intros Ho%Hwall. done.
Qed.

End LayoutAndHeadings.

(** ** Growing and steering *)

Lemma follow_places (ps : list GameObject) (tx ty td : Z)
    (lastp : Z * Z * Z) :
  last ((tx, ty, td) :: (place <$> ps)) = Some lastp →
  (place <$> follow tx ty td ps) ++ [lastp] = (tx, ty, td) :: (place <$> ps).
Proof.
  revert tx ty td. induction ps as [|p ps IH]; intros tx ty td; simpl.
  - by intros [= <-].
  - intros Hlast. unfold place at 1. simpl. f_equal.
    by apply IH.
Qed.

Section GrowAndSteer.

Context {T : Type} `{Clock T} (stg : Settings).

(** X11: growing is moving with the tail's cell kept: where [move] puts
    the parts, [grow] puts them too, and one more part stays on the place
    of the old last part. *)
Theorem grow_is_move_plus_tail (s : Snake T) (hd : GameObject)
    (rest : list GameObject) (lastp : Z * Z * Z) :
  parts s = hd :: rest →
  last (place <$> parts s) = Some lastp →
  ∃ sm sg,
    Snake_move stg s = Ok sm ∧ Snake_grow stg s = Ok sg
    ∧ place <$> parts sg = (place <$> parts sm) ++ [lastp].
Proof.
  intros Hp Hlast.
  rewrite (Snake_move_eq stg s hd rest Hp), (Snake_grow_eq stg s hd rest Hp).
  eexists _, _. split; [reflexivity|]. split; [reflexivity|].
  rewrite Hp in Hlast. cbn [parts with_parts].
  rewrite !fmap_cons. rewrite fmap_cons in Hlast.
  rewrite <- app_comm_cons. f_equal. symmetry.
  apply (follow_places rest (x (bounds hd)) (y (bounds hd)) (direction hd)).
  exact Hlast.
Qed.

(** X12: pressing the same key twice in a row does what pressing it once
    does, for every key and every head; and a key press changes nothing
    of the head but its direction. *)
Theorem handle_idempotent (key : Z) (o : GameObject) :
  ∃ o1, SnakeHead_handle key o = Ok o1
    ∧ SnakeHead_handle key o1 = Ok o1
    ∧ o1 = with_direction o (direction o1).
Proof.
  destruct (in_KEYS_values key) eqn:Hk.
  - apply bool_decide_eq_true in Hk.
    assert (∃ n, key = KEYS n) as [n ->].
    { repeat (apply elem_of_cons in Hk as [-> | Hk]); [by eexists ..|].
      by apply elem_of_nil in Hk. }
    destruct o as [c b col off spd d st].
    unfold SnakeHead_handle. cbn [direction].
    pose proof (Z.mod_pos_bound d 2 ltac:(lia)) as Hd.
    assert (d `mod` 2 = 0 ∨ d `mod` 2 = 1) as [Hm | Hm] by lia;
      rewrite Hm; destruct n;
      (eexists; split; [vm_compute; reflexivity|]; split; [|reflexivity];
       unfold SnakeHead_handle; cbn [direction]; try rewrite Hm;
       vm_compute; reflexivity).
  - rewrite handle_unbound by done. exists o. rewrite handle_unbound by done.
    by destruct o.
Qed.

End GrowAndSteer.

(** ** Key bindings *)

Section KeyBindings.

Context {T : Type} `{Clock T} (stg : Settings).

Lemma init_keydown_handlers (fps : Z) (r r' : rng) (g : SnakeGame T) :
  SnakeGame_init stg fps r = Ok (g, r') →
  keydown_handlers g
  = <[K_DOWN := [snake_head_handle]]>
      (<[K_UP := [snake_head_handle]]>
         (<[K_RIGHT := [snake_head_handle]]>
            (<[K_LEFT := [snake_head_handle]]> ∅))).
Proof.
  unfold SnakeGame_init.
  destruct (SNAKE_INIT_X stg) as [x0|]; [|done]. simpl.
  destruct (SNAKE_INIT_Y stg) as [y0|]; [|done]. simpl.
  destruct (randrange 0 _ _ r) as [[ax r1]|]; [|done]. simpl.
  destruct (randrange 0 _ _ r1) as [[ay r2]|]; [|done]. simpl.
  intros [= <- _]. reflexivity.
Qed.

Lemma bindings_lookup (key : Z) :
  (<[K_DOWN := [snake_head_handle]]>
     (<[K_UP := [snake_head_handle]]>
        (<[K_RIGHT := [snake_head_handle]]>
           (<[K_LEFT := [snake_head_handle]]> (∅ : gmap Z (list handler))))))
  !! key
  = if in_KEYS_values key then Some [snake_head_handle] else None.
Proof.
  unfold in_KEYS_values.
  destruct (decide (key = K_DOWN)) as [-> | Hd]; [done|].
  destruct (decide (key = K_UP)) as [-> | Hu]; [done|].
  destruct (decide (key = K_RIGHT)) as [-> | Hr]; [done|].
  destruct (decide (key = K_LEFT)) as [-> | Hl]; [done|].
  rewrite !lookup_insert_ne, lookup_empty by done.
  rewrite bool_decide_eq_false_2; [done|].
  rewrite !elem_of_cons, elem_of_nil. simpl. tauto.
Qed.

(** A key with handlers is dispatched without touching the table. *)
Lemma handle_events_handlers (queue : list event) (g g' : SnakeGame T) :
  (∀ key, in_KEYS_values key = true →
     is_Some (keydown_handlers g !! key)) →
  handle_events_loop dispatch_keydown queue g = Ok g' →
  keydown_handlers g' = keydown_handlers g.
Proof.
  intros Hbound. rewrite handle_events_loop_find.
  destruct (find actionable queue) as [[|key|key|ty]|] eqn:Hf; try done.
  - apply find_some in Hf as [_ Hk]. simpl in Hk.
    destruct (Hbound key Hk) as [hs Hhs].
    unfold dispatch_keydown, defaultdict_get. rewrite Hhs.
    intros (_ & _ & Hkh)%call_all_facts. rewrite Hkh. by destruct g.
  - by intros [= <-].
Qed.

Lemma run_key_bindings (fuel : nat) (inputs : list (list event * T))
    (dt : T) (g g' : SnakeGame T) (r r' : rng) :
  (∀ key, keydown_handlers g !! key
          = if in_KEYS_values key then Some [snake_head_handle] else None) →
  run_loop stg fuel dt inputs g r = Some (Ok (g', r')) →
  keydown_handlers g' = keydown_handlers g.
Proof.
  revert dt g r. induction inputs as [|[queue tick] inputs IH];
    intros dt g r Hb; simpl.
  - by intros [= <- _].
  - destruct (game_over g); [by intros [= <- _]|].
    destruct (frame stg fuel queue dt g r) as [[[g3 r3]|]|] eqn:Hf;
      try done.
    intros Hrun.
    assert (keydown_handlers g3 = keydown_handlers g) as Hsame.
    { unfold frame in Hf.
      destruct (handle_collisions fuel g r) as [[[g1 r1]|]|] eqn:Hc;
        try done.
      apply handle_collisions_facts in Hc
        as (wall & eaten & _ & _ & _ & _ & _ & _ & _ & _ & _ & Hk1 & _).
      unfold Game_handle_events, Game_update in Hf.
      destruct (handle_events_loop dispatch_keydown queue g1) as [g2|]
        eqn:He; [|done].
      simpl in Hf.
      destruct (update_objects stg dt (objects g2) g2) as [g4|] eqn:Hu;
        [|done].
      simpl in Hf. injection Hf as <- _.
      apply update_objects_facts in Hu as [_ Hk4].
      apply handle_events_handlers in He as Hk2.
      - congruence.
      - intros key Hkey. rewrite Hk1, Hb, Hkey. by eexists. }
    rewrite <- Hsame. apply (IH tick g3 r3); [|done].
    intros key. by rewrite Hsame.
Qed.

(** X16: in every state a game reaches, each of the four keys of [KEYS]
    is bound to exactly one handler, the head's [handle], and no other key
    is bound to anything. *)
Theorem run_keeps_key_bindings (fps : Z) (fuel : nat)
    (inputs : list (list event * T)) (g g' : SnakeGame T) (r r1 r' : rng)
    (key : Z) :
  SnakeGame_init stg fps r = Ok (g, r1) →
  Game_run stg fuel inputs g r1 = Some (Ok (g', r')) →
  keydown_handlers g' !! key
  = if in_KEYS_values key then Some [snake_head_handle] else None.
Proof.
  intros Hinit%init_keydown_handlers Hrun.
  rewrite (run_key_bindings fuel inputs _ g g' r1 r' ) by
    (try exact Hrun; intros k; rewrite Hinit; apply bindings_lookup).
  rewrite Hinit. apply bindings_lookup.
Qed.

(** X17: in every state a game reaches, a frame whose first quit request
    or bound key-down is the key-down of [key] hands [key] to the head's
    [handle] exactly once, and changes nothing else in the game. *)
Theorem handle_events_steers (fps : Z) (fuel : nat)
    (inputs : list (list event * T)) (g g' : SnakeGame T) (r r1 r' : rng)
    (queue : list event) (key : Z) :
  SnakeGame_init stg fps r = Ok (g, r1) →
  Game_run stg fuel inputs g r1 = Some (Ok (g', r')) →
  find actionable queue = Some (KEYDOWN key) →
  Game_handle_events queue g'
  = (s ← Snake_handle key (snake g'); Ok (with_snake g' s, [])).
Proof.
  intros Hinit%init_keydown_handlers Hrun Hfind.
  assert (keydown_handlers g' !! key = Some [snake_head_handle]) as Hk.
  { rewrite (run_key_bindings fuel inputs _ g g' r1 r') by
      (try exact Hrun; intros k; rewrite Hinit; apply bindings_lookup).
    rewrite Hinit, bindings_lookup.
    apply find_some in Hfind as [_ Ha]. simpl in Ha. by rewrite Ha. }
  unfold Game_handle_events. rewrite handle_events_loop_find, Hfind.
  unfold dispatch_keydown, defaultdict_get. rewrite Hk. simpl.
  destruct (Snake_handle key (snake g')) as [s|]; [|done]. simpl.
  by destruct g'.
Qed.

End KeyBindings.

(** ** Placing the apple, starting the game *)

Lemma randrange_unit_step_error (stop : Z) (r : rng) :
  stop ≤ 0 → randrange 0 stop 1 r = Raise ValueError.
Proof.
  intros Hs. unfold randrange. simpl.
  replace (stop - 0 + 1 - 1) with stop by lia. rewrite Z.div_1_r.
  by destruct (Z.leb_spec stop 0); [|lia].
Qed.

Lemma randrange_unit_step_ok (stop : Z) (r : rng) :
  0 < stop →
  ∃ v, randrange 0 stop 1 r = Ok (v, fun n => r (S n)) ∧ 0 ≤ v < stop.
Proof.
  intros Hs. unfold randrange. simpl.
  replace (stop - 0 + 1 - 1) with stop by lia. rewrite Z.div_1_r.
  destruct (Z.leb_spec stop 0); [lia|].
  eexists. split; [reflexivity|].
  pose proof (Z.mod_pos_bound (r 0%nat) stop Hs). lia.
Qed.

(** The count [randrange(0, stop, step)] works with, for a positive
    step. *)
Lemma randrange_grid (stop step : Z) (r : rng) :
  0 < step →
  (stop ≤ 0 → randrange 0 stop step r = Raise ValueError)
  ∧ (0 < stop →
     ∃ v, randrange 0 stop step r = Ok (v, fun n => r (S n))
          ∧ 0 ≤ v < stop ∧ (step | v)).
Proof.
  intros Hstep. unfold randrange.
  destruct (Z.eqb_spec step 0); [lia|].
  destruct (Z.ltb_spec 0 step); [|lia].
  replace (stop - 0 + step - 1) with (stop - 1 + 1 * step) by lia.
  rewrite Z.div_add by lia.
  pose proof (Z.div_mod (stop - 1) step ltac:(lia)) as Hdm.
  pose proof (Z.mod_pos_bound (stop - 1) step Hstep) as Hmod.
  set (q := (stop - 1) `div` step) in *.
  split; intros Hstop.
  - destruct (Z.leb_spec (q + 1) 0); [done|]. nia.
  - destruct (Z.leb_spec (q + 1) 0); [nia|]. simpl.
    eexists. split; [reflexivity|].
    pose proof (Z.mod_pos_bound (r 0%nat) (q + 1) ltac:(lia)) as Hk.
    split; [nia|]. by eexists; rewrite Z.mul_comm.
Qed.

Section Placement.

Context {T : Type} `{Clock T} (stg : Settings).

(** X8: [Apple.respawn] raises [ValueError] exactly when the apple leaves
    no room in the playfield ([width - w <= 0] or [height - h <= 0]);
    otherwise it succeeds and puts the apple at a pixel position with
    [0 <= x < width - w] and [0 <= y < height - h], so that the apple's
    right and bottom edges stay strictly inside; its size, offset, speed
    and lifespan are kept, and every position of that range can come
    out. *)
Theorem respawn_range (a : Apple) :
  (∀ r,
     match Apple_respawn a r with
     | Ok (a', _) =>
         (0 ≤ x (bounds (apple_obj a'))
          ∧ x (bounds (apple_obj a'))
            < (offset (apple_obj a)).1 - w (bounds (apple_obj a)))
         ∧ (0 ≤ y (bounds (apple_obj a'))
            ∧ y (bounds (apple_obj a'))
              < (offset (apple_obj a)).2 - h (bounds (apple_obj a)))
         ∧ w (bounds (apple_obj a')) = w (bounds (apple_obj a))
         ∧ h (bounds (apple_obj a')) = h (bounds (apple_obj a))
         ∧ offset (apple_obj a') = offset (apple_obj a)
         ∧ speed (apple_obj a') = speed (apple_obj a)
         ∧ lifespan a' = lifespan a
     | Raise e =>
         e = ValueError
         ∧ ((offset (apple_obj a)).1 - w (bounds (apple_obj a)) ≤ 0
            ∨ (offset (apple_obj a)).2 - h (bounds (apple_obj a)) ≤ 0)
     end)
  ∧ (∀ vx vy,
       0 ≤ vx < (offset (apple_obj a)).1 - w (bounds (apple_obj a)) →
       0 ≤ vy < (offset (apple_obj a)).2 - h (bounds (apple_obj a)) →
       ∃ a' r', Apple_respawn a (draws [vx; vy]) = Ok (a', r')
         ∧ x (bounds (apple_obj a')) = vx ∧ y (bounds (apple_obj a')) = vy).
Proof.
  split.
  - intros r. unfold Apple_respawn.
    destruct (Z_le_gt_dec
                ((offset (apple_obj a)).1 - w (bounds (apple_obj a))) 0)
      as [Hx | Hx].
    { rewrite randrange_unit_step_error by done. simpl. auto. }
    destruct (randrange_unit_step_ok
                ((offset (apple_obj a)).1 - w (bounds (apple_obj a))) r
                ltac:(lia)) as (vx & -> & Hvx).
    simpl.
    destruct (Z_le_gt_dec
                ((offset (apple_obj a)).2 - h (bounds (apple_obj a))) 0)
      as [Hy | Hy].
    { rewrite randrange_unit_step_error by done. simpl. auto. }
    destruct (randrange_unit_step_ok
                ((offset (apple_obj a)).2 - h (bounds (apple_obj a)))
                (fun n => r (S n)) ltac:(lia))
      as (vy & -> & Hvy).
    simpl. repeat split; try done; lia.
  - intros vx vy Hx Hy.
    destruct (respawn_any a vx vy (draws [vx; vy]) Hx Hy eq_refl eq_refl)
      as (a' & r' & -> & Hb).
    exists a', r'. rewrite Hb. done.
Qed.

Lemma SNAKE_INIT_pos :
  0 < GRID_SIZE stg →
  SNAKE_INIT_X stg
  = Ok (((WINDOW_WIDTH stg `div` 5) `div` GRID_SIZE stg) * GRID_SIZE stg)
  ∧ SNAKE_INIT_Y stg
    = Ok (((WINDOW_HEIGHT stg `div` 2) `div` GRID_SIZE stg) * GRID_SIZE stg).
Proof.
  intros Hg. unfold SNAKE_INIT_X, SNAKE_INIT_Y, floordiv. simpl.
  destruct (Z.eqb_spec (GRID_SIZE stg) 0); [lia|]. done.
Qed.

(** X14: how [SnakeGame.__init__] fails.  With a grid size of 0 the
    settings cannot even be computed ([ZeroDivisionError]); with a positive
    grid size and a window size that is not negative (the display, which
    is outside this model, refuses negative sizes) the game is built
    exactly when the window is wider and higher than one grid cell, and
    otherwise placing the apple raises [ValueError]. *)
Theorem SnakeGame_init_errors (fps : Z) (r : rng) :
  (GRID_SIZE stg = 0 →
   SnakeGame_init (T:=T) stg fps r = Raise ZeroDivisionError)
  ∧ (0 < GRID_SIZE stg →
     0 ≤ WINDOW_WIDTH stg → 0 ≤ WINDOW_HEIGHT stg →
     (WINDOW_WIDTH stg ≤ GRID_SIZE stg
      ∨ WINDOW_HEIGHT stg ≤ GRID_SIZE stg →
      SnakeGame_init (T:=T) stg fps r = Raise ValueError)
     ∧ (GRID_SIZE stg < WINDOW_WIDTH stg →
        GRID_SIZE stg < WINDOW_HEIGHT stg →
        ∃ g r', SnakeGame_init (T:=T) stg fps r = Ok (g, r'))).
Proof.
  split.
  - intros Hg. unfold SnakeGame_init, SNAKE_INIT_X, floordiv. simpl.
    by rewrite Hg.
  - intros Hg _ _. unfold SnakeGame_init.
    destruct (SNAKE_INIT_pos Hg) as [-> ->]. simpl.
    destruct (randrange_grid (WINDOW_WIDTH stg - GRID_SIZE stg)
                (GRID_SIZE stg) r Hg) as [Hxe Hxo].
    split.
    + intros [Hw | Hh].
      * by rewrite Hxe by lia.
      * destruct (Z_le_gt_dec (WINDOW_WIDTH stg - GRID_SIZE stg) 0)
          as [Hle | Hgt].
        { by rewrite Hxe by lia. }
        destruct (Hxo ltac:(lia)) as (ax & -> & _). simpl.
        destruct (randrange_grid (WINDOW_HEIGHT stg - GRID_SIZE stg)
                    (GRID_SIZE stg) (fun n => r (S n)) Hg) as [Hye _].
        by rewrite Hye by lia.
    + intros Hw Hh.
      destruct (Hxo ltac:(lia)) as (ax & -> & _). simpl.
      destruct (randrange_grid (WINDOW_HEIGHT stg - GRID_SIZE stg)
                  (GRID_SIZE stg) (fun n => r (S n)) Hg) as [_ Hyo].
      destruct (Hyo ltac:(lia)) as (ay & -> & _). simpl.
      by eexists _, _.
Qed.

(** X15: a game that is built with a positive grid size does not start
    dead: the new snake is in no collision, and the apple lies on the
    grid, inside the playfield. *)
Theorem new_game_is_alive (fps : Z) (r r' : rng) (g : SnakeGame T) :
  0 < GRID_SIZE stg →
  SnakeGame_init stg fps r = Ok (g, r') →
  Snake_check_collision (snake g) = Ok false
  ∧ game_over g = false ∧ score g = 0
  ∧ grid_aligned stg (bounds (apple_obj (apple g)))
  ∧ inside_playfield (WINDOW_WIDTH stg, WINDOW_HEIGHT stg)
      (bounds (apple_obj (apple g))).
Proof.
  intros Hg. unfold SnakeGame_init.
  destruct (SNAKE_INIT_pos Hg) as [-> ->]. simpl.
  destruct (randrange_grid (WINDOW_WIDTH stg - GRID_SIZE stg)
              (GRID_SIZE stg) r Hg) as [Hxe Hxo].
  destruct (Z_le_gt_dec (WINDOW_WIDTH stg - GRID_SIZE stg) 0) as [Hw | Hw].
  { by rewrite Hxe by lia. }
  destruct (Hxo ltac:(lia)) as (ax & -> & Hax & Hdx). simpl.
  destruct (randrange_grid (WINDOW_HEIGHT stg - GRID_SIZE stg)
              (GRID_SIZE stg) (fun n => r (S n)) Hg) as [Hye Hyo].
  destruct (Z_le_gt_dec (WINDOW_HEIGHT stg - GRID_SIZE stg) 0) as [Hh | Hh].
  { by rewrite Hye by lia. }
  destruct (Hyo ltac:(lia)) as (ay & -> & Hay & Hdy). simpl.
  intros [= <- _]. simpl. split; [|split; [done|split; [done|split]]].
  - pose proof (Z.div_mod (WINDOW_WIDTH stg) 5 ltac:(lia)) as Hw5.
    pose proof (Z.mod_pos_bound (WINDOW_WIDTH stg) 5 ltac:(lia)) as Hw5b.
    pose proof (Z.div_mod (WINDOW_HEIGHT stg) 2 ltac:(lia)) as Hh2.
    pose proof (Z.mod_pos_bound (WINDOW_HEIGHT stg) 2 ltac:(lia)) as Hh2b.
    set (qw := WINDOW_WIDTH stg `div` 5) in *.
    set (qh := WINDOW_HEIGHT stg `div` 2) in *.
    pose proof (Z.div_mod qw (GRID_SIZE stg) ltac:(lia)) as Hqw.
    pose proof (Z.mod_pos_bound qw (GRID_SIZE stg) Hg) as Hqwb.
    pose proof (Z.div_mod qh (GRID_SIZE stg) ltac:(lia)) as Hqh.
    pose proof (Z.mod_pos_bound qh (GRID_SIZE stg) Hg) as Hqhb.
    set (cw := qw `div` GRID_SIZE stg) in *.
    set (ch := qh `div` GRID_SIZE stg) in *.
    assert (0 ≤ cw) by nia. assert (0 ≤ ch) by nia.
    apply check_collision_fresh; simpl.
    + nia.
    + assert (cw = 0 ∨ 1 ≤ cw) as [-> | ?] by lia; nia.
    + nia.
    + assert (ch = 0 ∨ 1 ≤ ch) as [-> | ?] by lia; nia.
  - split; simpl; done.
  - unfold inside_playfield, left, right, top, bottom. simpl. lia.
Qed.

End Placement.

(** ** Drawing the tail *)

Lemma tuple_getitem_out_of_range {A : Type} (t : list A) (i : Z) :
  Z.of_nat (length t) ≤ i ∨ i < - Z.of_nat (length t) →
  tuple_getitem t i = Raise IndexError.
Proof.
  intros Hi. unfold tuple_getitem.
  destruct (Z.ltb_spec i 0).
  - destruct (Z.leb_spec 0 (i + Z.of_nat (length t))); [lia|]. done.
  - destruct (Z.leb_spec 0 i); [|lia].
    destruct (Z.ltb_spec i (Z.of_nat (length t))); [lia|]. done.
Qed.

(** X13: [SnakeTail.draw] draws a triangle whose first point is the
    midpoint of the edge the tail comes from and whose other two points
    are the corners of the edge it heads to, one box length further along
    the direction; this holds for the four directions 0..3.  A direction
    of 4 or more, or below -4, raises [IndexError]; a direction from -4
    to -1 indexes from the end and draws what the direction 4 higher
    draws. *)
Theorem SnakeTail_draw_points (o : GameObject) :
  (direction o = D_UP →
   SnakeTail_draw o
   = Ok [midbottom (bounds o); topleft (bounds o); topright (bounds o)])
  ∧ (direction o = D_RIGHT →
     SnakeTail_draw o
     = Ok [midleft (bounds o); topright (bounds o); bottomright (bounds o)])
  ∧ (direction o = D_DOWN →
     SnakeTail_draw o
     = Ok [midtop (bounds o); bottomright (bounds o); bottomleft (bounds o)])
  ∧ (direction o = D_LEFT →
     SnakeTail_draw o
     = Ok [midright (bounds o); bottomleft (bounds o); topleft (bounds o)])
  ∧ (0 ≤ direction o ≤ 3 →
     ∃ apex c1 c2,
       SnakeTail_draw o = Ok [apex; c1; c2]
       ∧ ∀ c, c = c1 ∨ c = c2 →
           (c.1 - apex.1) * (get_velocity (direction o) (speed o) 1).1
           + (c.2 - apex.2) * (get_velocity (direction o) (speed o) 1).2
           = if horizontal (direction o) then w (bounds o)
             else h (bounds o))
  ∧ (4 ≤ direction o ∨ direction o < -4 →
     SnakeTail_draw o = Raise IndexError)
  ∧ (-4 ≤ direction o < 0 →
     SnakeTail_draw o = SnakeTail_draw (with_direction o (direction o + 4))).
Proof.
  destruct o as [c b col off spd d st]. cbn [direction bounds speed].
  split; [by intros ->|]. split; [by intros ->|].
  split; [by intros ->|]. split; [by intros ->|].
  split; [|split].
  - intros Hd.
    destruct (direction_cases d Hd) as [-> | [-> | [-> | ->]]];
      (eexists _, _, _; split; [reflexivity|]);
      intros pt [-> | ->]; destruct b as [bx by_ bw bh];
      unfold horizontal, midbottom, topleft, topright, midleft, bottomright,
        midtop, bottomleft, midright, centerx, centery, left, right, top,
        bottom;
      eval_direction;
      cbn [fst snd bounds pygame.x pygame.y pygame.w pygame.h orb]; lia.
  - intros Hd. unfold SnakeTail_draw. cbn [direction bounds].
    rewrite (tuple_getitem_out_of_range _ (d * 2)) by (simpl; lia). done.
  - intros Hd.
    assert (d = -4 ∨ d = -3 ∨ d = -2 ∨ d = -1) as [-> | [-> | [-> | ->]]]
      by lia; reflexivity.
Qed.

(** ** Further instances *)

Lemma Snake_init_layout_witness :
  parts (Snake_init (T:=Q) settings_py 90 180 (0, 165, 80) (480, 360) 20 1 2)
    !! 3%nat
  = Some (GameObject_init settings_py SnakeTail 60 180 (0, 165, 80)
            (480, 360) 20 1)
  ∧ bounds (GameObject_init settings_py SnakeTail 60 180 (0, 165, 80)
              (480, 360) 20 1)
    = mkRect 60 180 10 10.
Proof.
  assert (parts (Snake_init (T:=Q) settings_py 90 180 (0, 165, 80)
                   (480, 360) 20 1 2) !! 3%nat
          = Some (GameObject_init settings_py SnakeTail 60 180 (0, 165, 80)
                    (480, 360) 20 1)) as Hl by reflexivity.
  split; [exact Hl|].
  destruct (Snake_init_layout (T:=Q) settings_py 90 180 (0, 165, 80)
              (480, 360) 20 1 2) as (_ & _ & Hparts).
  exact (proj1 (Hparts 3%nat _ Hl)).
Defined.

Lemma Snake_init_no_overlap_witness :
  0%nat ≠ 2%nat
  ∧ colliderect (mkRect 90 180 10 10) (mkRect 70 180 10 10) = false.
Proof.
  assert (0%nat ≠ 2%nat) as Hne by discriminate.
  split; [exact Hne|].
  exact (Snake_init_no_overlap (T:=Q) settings_py 90 180 (0, 165, 80)
           (480, 360) 20 1 2 0 2 _ _ Hne eq_refl eq_refl).
Defined.

Lemma moves_in_a_straight_line_witness :
  20 ≠ 0
  ∧ moves settings_py 3
      (Snake_init (T:=Q) settings_py 90 180 (0, 165, 80) (480, 360) 20 1 2)
    = Ok (Snake_init settings_py 120 180 (0, 165, 80) (480, 360) 20 1 2).
Proof.
  assert (20 ≠ 0) as Hs by discriminate.
  split; [exact Hs|].
  exact (moves_in_a_straight_line (T:=Q) settings_py 90 180 (0, 165, 80)
           (480, 360) 20 1 2 3 Hs).
Defined.

Lemma run_keeps_snake_linked_witness :
  ∃ g r1 g' r',
    SnakeGame_init (T:=Q) settings_py 60 (draws [30; 5]) = Ok (g, r1)
    ∧ Game_run settings_py 1
        [([], (17 # 1000)%Q); ([KEYDOWN K_UP], (17 # 1000)%Q);
         ([], (17 # 1000)%Q)] g r1
      = Some (Ok (g', r'))
    ∧ linked settings_py (parts (snake g')).
Proof.
  eexists _, _, _, _.
  split; [vm_compute; reflexivity|]. split; [vm_compute; reflexivity|].
  refine (proj2 (run_keeps_snake_linked (T:=Q) settings_py 60 1
                   [([], (17 # 1000)%Q); ([KEYDOWN K_UP], (17 # 1000)%Q);
                    ([], (17 # 1000)%Q)]
                   _ _ (draws [30; 5]) _ _ _ _ _)).
  - discriminate.
  - vm_compute; reflexivity.
  - vm_compute; reflexivity.
Defined.

Lemma head_clear_of_neck_witness :
  well_formed settings_py
    (parts (Snake_init (T:=Q) settings_py 90 180 (0, 165, 80) (480, 360)
              20 1 0))
  ∧ Snake_check_collision
      (Snake_init (T:=Q) settings_py 90 180 (0, 165, 80) (480, 360) 20 1 0)
    = Ok false.
Proof.
  assert (well_formed settings_py
            (parts (Snake_init (T:=Q) settings_py 90 180 (0, 165, 80)
                      (480, 360) 20 1 0))) as Hwf.
  { eexists _, _. split; [reflexivity|]. split; [discriminate|].
    split; [reflexivity|]. split; [reflexivity|].
    split; [reflexivity | exact I]. }
  split; [exact Hwf|].
  destruct (proj2 (head_clear_of_neck (T:=Q) settings_py _ Hwf) eq_refl)
    as (hd & b & Hhd & Hb & Hiff).
  rewrite Hb. f_equal. destruct b; [|reflexivity].
  injection Hhd as <-. destruct (proj1 Hiff eq_refl) as [Ho | [Ho | [Ho | Ho]]];
    vm_compute in Ho; discriminate.
Defined.

Lemma run_keeps_layout_witness :
  ∃ g r1 g' r',
    SnakeGame_init (T:=Q) settings_py 60 (draws [30; 5]) = Ok (g, r1)
    ∧ Game_run settings_py 1
        [([], (17 # 1000)%Q); ([KEYDOWN K_UP], (17 # 1000)%Q);
         ([], (17 # 1000)%Q)] g r1
      = Some (Ok (g', r'))
    ∧ layout (parts (snake g')).
Proof.
  eexists _, _, _, _.
  split; [vm_compute; reflexivity|]. split; [vm_compute; reflexivity|].
  refine (proj1 (run_keeps_layout (T:=Q) settings_py 60 1
                   [([], (17 # 1000)%Q); ([KEYDOWN K_UP], (17 # 1000)%Q);
                    ([], (17 # 1000)%Q)]
                   _ _ (draws [30; 5]) _ _ _ _)).
  - vm_compute; reflexivity.
  - vm_compute; reflexivity.
Defined.

Lemma run_keeps_headings_witness :
  ∃ g r1 g' r',
    SnakeGame_init (T:=Q) settings_py 60 (draws [30; 5]) = Ok (g, r1)
    ∧ Game_run settings_py 1
        [([], (17 # 1000)%Q); ([KEYDOWN K_UP], (17 # 1000)%Q);
         ([], (17 # 1000)%Q)] g r1
      = Some (Ok (g', r'))
    ∧ headings_valid (parts (snake g')).
Proof.
  eexists _, _, _, _.
  split; [vm_compute; reflexivity|]. split; [vm_compute; reflexivity|].
  refine (run_keeps_headings (T:=Q) settings_py 60 1
            [([], (17 # 1000)%Q); ([KEYDOWN K_UP], (17 # 1000)%Q);
             ([], (17 # 1000)%Q)]
            _ _ (draws [30; 5]) _ _ _ _).
  - vm_compute; reflexivity.
  - vm_compute; reflexivity.
Defined.

Lemma respawn_range_witness :
  0 ≤ 3 < 480 - 10 ∧ 0 ≤ 7 < 360 - 10
  ∧ ∃ a' r',
      Apple_respawn (Apple_init settings_py 300 50 (480, 360) (110, 203, 60))
        (draws [3; 7])
      = Ok (a', r')
      ∧ x (bounds (apple_obj a')) = 3 ∧ y (bounds (apple_obj a')) = 7.
Proof.
  assert (0 ≤ 3 < 480 - 10) as Hx by lia.
  assert (0 ≤ 7 < 360 - 10) as Hy by lia.
  split; [exact Hx|]. split; [exact Hy|].
  exact (proj2 (respawn_range
                  (Apple_init settings_py 300 50 (480, 360) (110, 203, 60)))
           3 7 Hx Hy).
Defined.

Lemma get_apple_post_witness :
  ∃ g r g' r',
    SnakeGame_init (T:=Q) settings_py 60 (draws [9; 18; 3; 7]) = Ok (g, r)
    ∧ get_apple 2 g r = Some (Ok (g', r'))
    ∧ score g' = score g + 1 ∧ got_apple (snake g') = true.
Proof.
  eexists _, _, _, _.
  split; [vm_compute; reflexivity|].
  assert (∀ (g g' : SnakeGame Q) r r',
            get_apple 2 g r = Some (Ok (g', r')) →
            get_apple 2 g r = Some (Ok (g', r'))
            ∧ score g' = score g + 1 ∧ got_apple (snake g') = true) as Hw.
  { intros g g' r r' Hg. split; [exact Hg|].
    destruct (get_apple_post 2 g g' r r' Hg) as (Hs & Hf & _).
    split; [exact Hs | exact Hf]. }
  apply Hw. vm_compute; reflexivity.
Defined.


Lemma grow_is_move_plus_tail_witness :
  ∃ sm sg,
    Snake_move settings_py
      (Snake_init (T:=Q) settings_py 90 180 (0, 165, 80) (480, 360) 20 1 1)
    = Ok sm
    ∧ Snake_grow settings_py
        (Snake_init (T:=Q) settings_py 90 180 (0, 165, 80) (480, 360) 20 1 1)
      = Ok sg
    ∧ place <$> parts sg = (place <$> parts sm) ++ [(70, 180, 1)].
Proof.
  exact (grow_is_move_plus_tail settings_py
           (Snake_init (T:=Q) settings_py 90 180 (0, 165, 80) (480, 360)
              20 1 1)
           _ _ (70, 180, 1) eq_refl eq_refl).
Defined.

Lemma SnakeTail_draw_points_witness :
  direction (GameObject_init settings_py SnakeTail 80 180 (0, 165, 80)
               (480, 360) 20 D_RIGHT) = D_RIGHT
  ∧ SnakeTail_draw (GameObject_init settings_py SnakeTail 80 180 (0, 165, 80)
                      (480, 360) 20 D_RIGHT)
    = Ok [(80, 185); (90, 180); (90, 190)].
Proof.
  split; [reflexivity|].
  exact (proj1 (proj2 (SnakeTail_draw_points
                         (GameObject_init settings_py SnakeTail 80 180
                            (0, 165, 80) (480, 360) 20 D_RIGHT)))
           eq_refl).
Defined.

Lemma SnakeGame_init_errors_witness :
  0 < GRID_SIZE settings_py
  ∧ (∃ g r', SnakeGame_init (T:=Q) settings_py 60 (draws [30; 5])
             = Ok (g, r'))
  ∧ SnakeGame_init (T:=Q) (mkSettings 480 360 60 0 20 0) 60 (draws [30; 5])
    = Raise ZeroDivisionError.
Proof.
  assert (0 < GRID_SIZE settings_py) as Hg by reflexivity.
  split; [exact Hg|]. split.
  - refine (proj2 (proj2 (SnakeGame_init_errors (T:=Q) settings_py 60
                            (draws [30; 5])) Hg _ _) _ _);
      vm_compute; discriminate || reflexivity.
  - exact (proj1 (SnakeGame_init_errors (T:=Q) (mkSettings 480 360 60 0 20 0)
                    60 (draws [30; 5])) eq_refl).
Defined.

Lemma new_game_is_alive_witness :
  ∃ g r',
    SnakeGame_init (T:=Q) settings_py 60 (draws [30; 5]) = Ok (g, r')
    ∧ Snake_check_collision (snake g) = Ok false.
Proof.
  eexists _, _. split; [vm_compute; reflexivity|].
  refine (proj1 (new_game_is_alive (T:=Q) settings_py 60 (draws [30; 5]) _ _
                   _ _)).
  - reflexivity.
  - vm_compute; reflexivity.
Defined.

Lemma run_keeps_key_bindings_witness :
  ∃ g r1 g' r',
    SnakeGame_init (T:=Q) settings_py 60 (draws [30; 5]) = Ok (g, r1)
    ∧ Game_run settings_py 1
        [([], (17 # 1000)%Q); ([KEYDOWN K_UP], (17 # 1000)%Q)] g r1
      = Some (Ok (g', r'))
    ∧ keydown_handlers g' !! K_LEFT = Some [snake_head_handle]
    ∧ keydown_handlers g' !! 97 = None.
Proof.
  eexists _, _, _, _.
  split; [vm_compute; reflexivity|]. split; [vm_compute; reflexivity|].
  split.
  - refine (run_keeps_key_bindings (T:=Q) settings_py 60 1
              [([], (17 # 1000)%Q); ([KEYDOWN K_UP], (17 # 1000)%Q)]
              _ _ (draws [30; 5]) _ _ K_LEFT _ _);
      vm_compute; reflexivity.
  - refine (run_keeps_key_bindings (T:=Q) settings_py 60 1
              [([], (17 # 1000)%Q); ([KEYDOWN K_UP], (17 # 1000)%Q)]
              _ _ (draws [30; 5]) _ _ 97 _ _);
      vm_compute; reflexivity.
Defined.

Lemma handle_events_steers_witness :
  ∃ g r1,
    SnakeGame_init (T:=Q) settings_py 60 (draws [30; 5]) = Ok (g, r1)
    ∧ find actionable [KEYUP K_DOWN; KEYDOWN K_UP; KEYDOWN K_LEFT]
      = Some (KEYDOWN K_UP)
    ∧ Game_handle_events [KEYUP K_DOWN; KEYDOWN K_UP; KEYDOWN K_LEFT] g
      = (s ← Snake_handle K_UP (snake g); Ok (with_snake g s, [])).
Proof.
  eexists _, _. split; [vm_compute; reflexivity|].
  split; [reflexivity|].
  refine (handle_events_steers (T:=Q) settings_py 60 1 [] _ _
            (draws [30; 5]) _ _ _ K_UP _ _ _).
  - vm_compute; reflexivity.
  - vm_compute; reflexivity.
  - reflexivity.
Defined.

(** ** The cadence, measured *)

